(** * Photo-event backend: conversation engine and upload gatekeeper

    A shallow embedding of [src/index.js]: the Mongoose models [Event] and
    [Photo], the Telegram handlers ([bot.start], [bot.on('text')],
    [bot.on('photo')], [bot.command('done')], [bot.command('disable')]) and
    the two HTTP routes ([GET /api/events/:eventId],
    [POST /api/upload/:eventId]).

    Conventions.
    - A JavaScript string is a [string]; one character stands for one UTF-16
      code unit (code units below 256), so [String.length] is [.length].
      Reply literals are kept byte for byte and are never measured.
    - Every handler is a computation in the monad [IO]: it threads the
      [World] (the [userStates] map, the two collections and the messages
      sent so far) and may throw.  [try_catch] is [try { } catch { }].
    - What the outside world answers during one invocation of a handler (the
      clock, the random token, whether a database call or a transfer to the
      image host fails) is read from an [Env].
    - A message sent with [ctx.reply] is taken to reach the user: a reply
      that the transport rejects is not modelled.  In every handler but
      that of [/done] the session object is updated in place before the
      reply, so a rejected reply would leave the same sessions and
      collections; the handler of [/done] deletes the session after its
      last reply.
    - The bot library runs the handlers in the order they are registered
      and goes on to the next one only when a handler calls [next].  No
      handler of the source does, so an update is handled by the first
      handler that matches it ([route]): the start command by [bot.start],
      every other text by [bot.on('text')], a photo by [bot.on('photo')].
      The handlers of [/done] and [/disable], registered after
      [bot.on('text')], are kept as operations of their own; the statements
      about the program go through [route]. *)

From Stdlib Require Import ZArith String Ascii List Bool Lia.
From stdpp Require Import base option gmap strings list sorting.

Local Open Scope string_scope.
Local Open Scope Z_scope.

(** ** Strings *)

Definition nl : string := String (ascii_of_nat 10) "".

(** [arr.includes(text)] on an array of strings. *)
Definition includes (arr : list string) (text : string) : bool :=
  existsb (String.eqb text) arr.

(** [text.replace('/', '')]: the first occurrence of the pattern is removed. *)
Fixpoint replace_slash (text : string) : string :=
  match text with
  | EmptyString => EmptyString
  | String c rest =>
      if Ascii.eqb c "/" then rest else String c (replace_slash rest)
  end.

(** *** [parseInt(text)] with the radix left out

    ECMAScript's algorithm: skip leading white space, read a sign, strip a
    [0x]/[0X] prefix (radix 16, otherwise 10), then take the longest prefix
    of digits of that radix.  No digit at all gives [NaN], modelled by [None].
    The handler only compares the result with 1 and 20 and stores it when it
    lies between them, where a JavaScript Number is exact. *)

Definition isStrWhiteSpaceChar (c : ascii) : bool :=
  let n := nat_of_ascii c in
  (Nat.eqb n 9 || Nat.eqb n 10 || Nat.eqb n 11 || Nat.eqb n 12
   || Nat.eqb n 13 || Nat.eqb n 32 || Nat.eqb n 160)%bool.

Fixpoint trimStart (s : string) : string :=
  match s with
  | EmptyString => EmptyString
  | String c rest => if isStrWhiteSpaceChar c then trimStart rest else s
  end.

(** The value of a digit in radix up to 36: [0-9], [a-z], [A-Z]. *)
Definition digitValue (c : ascii) : option Z :=
  let n := Z.of_nat (nat_of_ascii c) in
  if (48 <=? n) && (n <=? 57) then Some (n - 48)
  else if (97 <=? n) && (n <=? 122) then Some (n - 87)
  else if (65 <=? n) && (n <=? 90) then Some (n - 55)
  else None.

Definition radixDigit (R : Z) (c : ascii) : option Z :=
  match digitValue c with
  | Some v => if v <? R then Some v else None
  | None => None
  end.

(** Longest prefix of radix-[R] digits; [acc] is the value read so far,
    [None] while no digit has been read. *)
Fixpoint parseDigits (R : Z) (s : string) (acc : option Z) : option Z :=
  match s with
  | EmptyString => acc
  | String c rest =>
      match radixDigit R c with
      | Some v => parseDigits R rest (Some (R * default 0 acc + v))
      | None => acc
      end
  end.

Definition parseInt (text : string) : option Z :=
  let str := trimStart text in
  let '(sign, str) :=
    match str with
    | String "-" rest => (-1, rest)
    | String "+" rest => (1, rest)
    | _ => (1, str)
    end in
  let '(R, str) :=
    match str with
    | String "0" (String "x" rest) => (16, rest)
    | String "0" (String "X" rest) => (16, rest)
    | _ => (10, str)
    end in
  match parseDigits R str None with
  | Some mathInt => Some (sign * mathInt)
  | None => None
  end.

(** ** Data model *)

(** The object [{ public_id, url }] returned by [uploadToCloudinary]. *)
Module Image.
Record t : Type := mk { public_id : string; url : string }.
End Image.

Inductive ServiceType : Type := both | viewalbum | uploadpics.
Inductive Status : Type := active | disabled.
Inductive UploadType : Type := preloaded | guest.

Definition ServiceType_eqb (a b : ServiceType) : bool :=
  match a, b with
  | both, both | viewalbum, viewalbum | uploadpics, uploadpics => true
  | _, _ => false
  end.

Definition Status_eqb (a b : Status) : bool :=
  match a, b with
  | active, active | disabled, disabled => true
  | _, _ => false
  end.

Definition UploadType_eqb (a b : UploadType) : bool :=
  match a, b with
  | preloaded, preloaded | guest, guest => true
  | _, _ => false
  end.

(** An element of [Event.preloadedPhotos]. *)
Module Preloaded.
Record t : Type := mk { public_id : string; url : string; uploadedAt : Z }.
End Preloaded.

(** A document of the [Event] collection, as the schema admits it. *)
Module Event.
Record t : Type := mk {
  eventId : string;
  welcomeText : string;
  description : string;
  backgroundImage : option Image.t;
  serviceType : ServiceType;
  uploadLimit : Z;
  preloadedPhotos : list Preloaded.t;
  createdBy : string;
  status : Status;
  createdAt : Z
}.

Definition set_status (st : Status) (e : t) : t :=
  mk (eventId e) (welcomeText e) (description e) (backgroundImage e)
     (serviceType e) (uploadLimit e) (preloadedPhotos e) (createdBy e)
     st (createdAt e).
End Event.

Module UploaderInfo.
Record t : Type := mk { ip : string; userAgent : option string }.
End UploaderInfo.

(** A document of the [Photo] collection. *)
Module Photo.
Record t : Type := mk {
  eventId : string;
  public_id : string;
  url : string;
  uploadType : UploadType;
  uploaderInfo : option UploaderInfo.t;
  approved : bool;
  uploadedAt : Z
}.
End Photo.

(** The draft [userState.eventData]: a plain object whose properties are
    filled in step by step; [None] is [undefined]. *)
Module EventData.
Record t : Type := mk {
  eventId : string;
  createdBy : string;
  welcomeText : option string;
  description : option string;
  backgroundImage : option Image.t;
  serviceType : option string;
  uploadLimit : option Z;
  preloadedPhotos : option (list Image.t)
}.

Definition set_welcomeText (v : string) (d : t) : t :=
  mk (eventId d) (createdBy d) (Some v) (description d) (backgroundImage d)
     (serviceType d) (uploadLimit d) (preloadedPhotos d).
Definition set_description (v : string) (d : t) : t :=
  mk (eventId d) (createdBy d) (welcomeText d) (Some v) (backgroundImage d)
     (serviceType d) (uploadLimit d) (preloadedPhotos d).
Definition set_backgroundImage (v : Image.t) (d : t) : t :=
  mk (eventId d) (createdBy d) (welcomeText d) (description d) (Some v)
     (serviceType d) (uploadLimit d) (preloadedPhotos d).
Definition set_serviceType (v : string) (d : t) : t :=
  mk (eventId d) (createdBy d) (welcomeText d) (description d)
     (backgroundImage d) (Some v) (uploadLimit d) (preloadedPhotos d).
Definition set_uploadLimit (v : Z) (d : t) : t :=
  mk (eventId d) (createdBy d) (welcomeText d) (description d)
     (backgroundImage d) (serviceType d) (Some v) (preloadedPhotos d).
Definition set_preloadedPhotos (v : list Image.t) (d : t) : t :=
  mk (eventId d) (createdBy d) (welcomeText d) (description d)
     (backgroundImage d) (serviceType d) (uploadLimit d) (Some v).
End EventData.

(** The values of [userState.step]. *)
Inductive Step : Type :=
| welcomeText | description | backgroundImage | serviceType | uploadLimit
| preloadedPhotos | eventIdForDisable.

Definition Step_eqb (a b : Step) : bool :=
  match a, b with
  | welcomeText, welcomeText | description, description
  | backgroundImage, backgroundImage | serviceType, serviceType
  | uploadLimit, uploadLimit | preloadedPhotos, preloadedPhotos
  | eventIdForDisable, eventIdForDisable => true
  | _, _ => false
  end.

(** A value of the [userStates] map.  [/disable] stores [{ step }] alone,
    so [eventData] may be [undefined]. *)
Module UserState.
Record t : Type := mk { step : Step; eventData : option EventData.t }.
End UserState.

(** ** The world and the environment *)

Record World : Type := mkWorld {
  userStates : gmap string UserState.t;
  Events : list Event.t;
  Photos : list Photo.t;
  replies : list string
}.

(** What the collaborators answer during one invocation of a handler. *)
Record Env : Type := mkEnv {
  now : Z;                        (* Date.now() *)
  random_token : string;          (* Math.random().toString(36).substr(2, 9).toUpperCase() *)
  FRONTEND_URL : string;          (* process.env.FRONTEND_URL *)
  find_fails : bool;              (* Event.findOne / Photo.find rejects *)
  count_fails : bool;             (* Photo.countDocuments rejects *)
  event_save_fails : bool;        (* event.save() rejects on the store's side *)
  photo_save_fails : nat -> bool; (* the i-th Photo save of the invocation rejects *)
  download_fails : bool;          (* getFileLink / fetch / writeFileSync throws *)
  cloudinary : option Image.t;    (* result of uploader.upload, None when it rejects *)
  unlink_fails : bool;            (* fs.unlinkSync throws *)
  now_at : nat -> Z               (* Date.now() when the i-th new Photo of /done is built *)
}.

(** ** The monad of handlers *)

Inductive result (A : Type) : Type :=
| Ok (a : A)
| Thrown.
Arguments Ok {A} a.
Arguments Thrown {A}.

Definition IO (A : Type) : Type := World -> result A * World.

#[global] Instance IO_ret : MRet IO := fun A a w => (Ok a, w).
#[global] Instance IO_bind : MBind IO := fun A B f m w =>
  match m w with
  | (Ok a, w') => f a w'
  | (Thrown, w') => (Thrown, w')
  end.

Definition throw {A : Type} : IO A := fun w => (Thrown, w).

(** [try { body } catch (error) { handler }] *)
Definition try_catch {A : Type} (body handler : IO A) : IO A := fun w =>
  match body w with
  | (Ok a, w') => (Ok a, w')
  | (Thrown, w') => handler w'
  end.

Definition when_throw (b : bool) : IO unit :=
  if b then throw else mret tt.

(** [ctx.reply(text)], taken to reach the user (see the conventions). *)
Definition reply (text : string) : IO unit := fun w =>
  (Ok tt, mkWorld (userStates w) (Events w) (Photos w) (replies w ++ [text])).

(** [userStates.get], [userStates.set], [userStates.delete] *)
Definition userStates_get (userId : string) : IO (option UserState.t) :=
  fun w => (Ok (userStates w !! userId), w).

Definition userStates_set (userId : string) (us : UserState.t) : IO unit :=
  fun w => (Ok tt, mkWorld (<[userId := us]> (userStates w)) (Events w) (Photos w) (replies w)).

Definition userStates_delete (userId : string) : IO unit :=
  fun w => (Ok tt, mkWorld (delete userId (userStates w)) (Events w) (Photos w) (replies w)).


(** ** The Mongoose models *)

(** [required: true] on a String path: the value must be present and, as
    Mongoose checks it, not the empty string. *)
Definition required (v : option string) : option string :=
  match v with
  | Some s => if String.eqb s "" then None else Some s
  | None => None
  end.

(** [maxlength: n] *)
Definition maxlength (n : nat) (s : string) : option string :=
  if (String.length s <=? n)%nat then Some s else None.

(** [enum: ['both', 'viewalbum', 'uploadpics'], default: 'both'] *)
Definition castServiceType (v : option string) : option ServiceType :=
  match v with
  | None => Some both
  | Some s =>
      if String.eqb s "both" then Some both
      else if String.eqb s "viewalbum" then Some viewalbum
      else if String.eqb s "uploadpics" then Some uploadpics
      else None
  end.

(** [type: Number, default: 5, min: 1, max: 20] *)
Definition castUploadLimit (v : option Z) : option Z :=
  let n := default 5 v in
  if (1 <=? n) && (n <=? 20) then Some n else None.

(** An element of the [preloadedPhotos] array with its default [uploadedAt]. *)
Definition castPreloaded (t : Z) (img : Image.t) : Preloaded.t :=
  Preloaded.mk (Image.public_id img) (Image.url img) t.

(** [new Event(eventData)] followed by the validation that [save()] runs:
    the document with the schema's defaults filled in, or [None] when a
    validator rejects it.  [new Event(undefined)] is the empty document,
    which misses its required paths. *)
Definition Event_new (t : Z) (eventData : option EventData.t) : option Event.t :=
  d ← eventData;
  eventId ← required (Some (EventData.eventId d));
  welcomeText ← required (EventData.welcomeText d) ≫= maxlength 100;
  description ← required (EventData.description d) ≫= maxlength 200;
  serviceType ← castServiceType (EventData.serviceType d);
  uploadLimit ← castUploadLimit (EventData.uploadLimit d);
  createdBy ← required (Some (EventData.createdBy d));
  Some (Event.mk eventId welcomeText description
          (EventData.backgroundImage d) serviceType uploadLimit
          (castPreloaded t <$> default [] (EventData.preloadedPhotos d))
          createdBy active t).

(** The validation that [save()] runs on a new Photo: [eventId],
    [public_id] and [url] are required. *)
Definition Photo_valid (p : Photo.t) : bool :=
  negb (String.eqb (Photo.eventId p) "")
  && negb (String.eqb (Photo.public_id p) "")
  && negb (String.eqb (Photo.url p) "").

(** [sort({ uploadedAt: -1 })]: newest first; documents with equal
    timestamps keep the order of the collection. *)
Fixpoint insert_desc (p : Photo.t) (l : list Photo.t) : list Photo.t :=
  match l with
  | [] => [p]
  | q :: rest =>
      if Photo.uploadedAt q <=? Photo.uploadedAt p then p :: l
      else q :: insert_desc p rest
  end.

Definition sort_desc (l : list Photo.t) : list Photo.t :=
  foldr insert_desc [] l.

(** The filter of [Photo.countDocuments({ eventId, uploadType: 'guest',
    'uploaderInfo.ip': ip })]. *)
Definition guest_upload_of (eventId ip : string) (p : Photo.t) : bool :=
  String.eqb (Photo.eventId p) eventId
  && UploadType_eqb (Photo.uploadType p) guest
  && match Photo.uploaderInfo p with
     | Some info => String.eqb (UploaderInfo.ip info) ip
     | None => false
     end.

Definition preloaded_of (eventId : string) (p : Photo.t) : bool :=
  String.eqb (Photo.eventId p) eventId
  && UploadType_eqb (Photo.uploadType p) preloaded.

Definition approved_guest_of (eventId : string) (p : Photo.t) : bool :=
  String.eqb (Photo.eventId p) eventId
  && UploadType_eqb (Photo.uploadType p) guest
  && Photo.approved p.

(** ** HTTP requests and responses *)

Module Request.
Record t : Type := mk {
  eventId : string;           (* req.params.eventId *)
  ip : string;                (* req.ip *)
  userAgent : option string;  (* req.get('User-Agent') *)
  file : option string        (* req.file.path, None when no file was sent *)
}.
End Request.

Inductive Body : Type :=
| ErrorBody (error : string)
| EventBody (event : Event.t) (preloadedPhotos guestPhotos : list Photo.t)
            (uploadEnabled : bool)
| UploadBody (success : bool) (photo : Photo.t).

Record Response : Type := json { statusCode : Z; body : Body }.

Section Handlers.

Variable env : Env.

(** *** Database and storage calls *)

(** [Event.findOne({ eventId })]: the first matching document, with its
    position in the collection as its identity. *)
Definition Event_findOne (eventId : string) : IO (option (nat * Event.t)) :=
  fun w =>
    if find_fails env then (Thrown, w)
    else (Ok (list_find (fun e => Event.eventId e = eventId) (Events w)), w).

(** [new Event(eventData).save()]: rejected by the validators, by the unique
    index on [eventId], or by the store. *)
Definition Event_create (eventData : option EventData.t) : IO Event.t :=
  fun w =>
    if event_save_fails env then (Thrown, w)
    else match Event_new (now env) eventData with
         | None => (Thrown, w)
         | Some event =>
             if existsb (fun e => String.eqb (Event.eventId e) (Event.eventId event))
                        (Events w)
             then (Thrown, w)
             else (Ok event,
                   mkWorld (userStates w) (Events w ++ [event]) (Photos w) (replies w))
         end.

(** [event.save()] on a document found at position [i]. *)
Definition Event_save (i : nat) (event : Event.t) : IO unit :=
  fun w =>
    if event_save_fails env then (Thrown, w)
    else (Ok tt, mkWorld (userStates w) (<[i := event]> (Events w)) (Photos w) (replies w)).

(** [photo.save()] on a new Photo, the [i]-th save of the invocation. *)
Definition Photo_save (i : nat) (photo : Photo.t) : IO unit :=
  fun w =>
    if photo_save_fails env i then (Thrown, w)
    else if Photo_valid photo
    then (Ok tt, mkWorld (userStates w) (Events w) (Photos w ++ [photo]) (replies w))
    else (Thrown, w).

Definition Photo_countDocuments (eventId ip : string) : IO Z :=
  fun w =>
    if count_fails env then (Thrown, w)
    else (Ok (Z.of_nat (length (filter (fun p => guest_upload_of eventId ip p = true) (Photos w)))), w).

Definition Photo_find_sorted (f : Photo.t -> bool) : IO (list Photo.t) :=
  fun w =>
    if find_fails env then (Thrown, w)
    else (Ok (sort_desc (filter (fun p => f p = true) (Photos w))), w).

(** [uploadToCloudinary(path, folder)] *)
Definition uploadToCloudinary : IO Image.t :=
  match cloudinary env with
  | Some uploadResult => mret uploadResult
  | None => throw
  end.

(** [generateEventId()] *)
Definition generateEventId : string := "EVT_" ++ random_token env.

(** *** The session object

    [userState] is the very object stored in [userStates], so an assignment
    to one of its properties is seen by the map at once; the handler goes
    on with the updated object. *)
Definition assign (userId : string) (userState : UserState.t) : IO UserState.t :=
  userStates_set userId userState ;; mret userState.

(** [userState.eventData.<field> = v]; a TypeError when [eventData] is
    [undefined]. *)
Definition assign_eventData (userId : string) (userState : UserState.t)
    (f : EventData.t -> EventData.t) : IO UserState.t :=
  match UserState.eventData userState with
  | Some eventData =>
      assign userId (UserState.mk (UserState.step userState) (Some (f eventData)))
  | None => throw
  end.

(** [userState.step = s] *)
Definition assign_step (userId : string) (userState : UserState.t) (s : Step)
    : IO UserState.t :=
  assign userId (UserState.mk s (UserState.eventData userState)).

(** *** [bot.start] *)
Definition onStart (userId : string) : IO unit :=
  let eventId := generateEventId in
  userStates_set userId
    (UserState.mk welcomeText
       (Some (EventData.mk eventId userId None None None None None None))) ;;
  reply ("🎉 Event Created! ID: " ++ eventId ++ nl
         ++ "Enter welcome text (max 100 chars):").

(** *** [bot.on('text')]

    Each [case] yields [None] when it leaves the handler with [return] and
    [Some userState] when it reaches [break]; the statement after the
    [switch] then stores the object again. *)
Definition onText (userId text : string) : IO unit :=
  userState ← userStates_get userId;
  match userState with
  | None => mret tt
  | Some userState =>
      broke ←
        match UserState.step userState with
        | welcomeText =>
            if (100 <? String.length text)%nat
            then reply "❌ Too long! Max 100 chars:" ;; mret None
            else
              userState ← assign_eventData userId userState (EventData.set_welcomeText text);
              userState ← assign_step userId userState description;
              reply "✅ Now enter description (max 200 chars):" ;;
              mret (Some userState)
        | description =>
            if (200 <? String.length text)%nat
            then reply "❌ Too long! Max 200 chars:" ;; mret None
            else
              userState ← assign_eventData userId userState (EventData.set_description text);
              userState ← assign_step userId userState backgroundImage;
              reply "✅ Now send background image:" ;;
              mret (Some userState)
        | serviceType =>
            if negb (includes ["/both"; "/viewalbum"; "/uploadpics"] text)
            then reply "❌ Use /both, /viewalbum, or /uploadpics" ;; mret None
            else
              userState ← assign_eventData userId userState
                            (EventData.set_serviceType (replace_slash text));
              userState ← assign_step userId userState uploadLimit;
              reply "✅ Enter upload limit (1-20):" ;;
              mret (Some userState)
        | uploadLimit =>
            match parseInt text with
            | None => reply "❌ Enter number 1-20:" ;; mret None
            | Some limit =>
                if (limit <? 1) || (20 <? limit)
                then reply "❌ Enter number 1-20:" ;; mret None
                else
                  userState ← assign_eventData userId userState (EventData.set_uploadLimit limit);
                  userState ← assign_step userId userState preloadedPhotos;
                  reply "✅ Send preloaded photos (type /done when finished):" ;;
                  mret (Some userState)
            end
        | eventIdForDisable =>
            returned ←
              try_catch
                (event ← Event_findOne text;
                 match event with
                 | None => reply "❌ Event not found" ;; mret true
                 | Some (i, event) =>
                     Event_save i (Event.set_status disabled event) ;;
                     reply ("✅ Uploads disabled for event: " ++ text) ;;
                     mret false
                 end)
                (reply "❌ Failed to disable event" ;; mret false);
            if returned : bool then mret None
            else userStates_delete userId ;; mret (Some userState)
        | backgroundImage | preloadedPhotos => mret (Some userState)
        end;
      match broke with
      | Some userState => userStates_set userId userState
      | None => mret tt
      end
  end.

(** *** [bot.on('photo')] *)
Definition onPhoto (userId : string) : IO unit :=
  userState ← userStates_get userId;
  match userState with
  | None => mret tt
  | Some userState =>
      try_catch
        (when_throw (download_fails env) ;;
         userState ←
           match UserState.step userState with
           | backgroundImage =>
               uploadResult ← uploadToCloudinary;
               userState ← assign_eventData userId userState
                             (EventData.set_backgroundImage uploadResult);
               userState ← assign_step userId userState serviceType;
               reply "✅ Background set! Choose: /both, /viewalbum, or /uploadpics" ;;
               mret userState
           | preloadedPhotos =>
               userState ←
                 match UserState.eventData userState with
                 | None => throw
                 | Some eventData =>
                     match EventData.preloadedPhotos eventData with
                     | None => assign_eventData userId userState
                                 (EventData.set_preloadedPhotos [])
                     | Some _ => mret userState
                     end
                 end;
               uploadResult ← uploadToCloudinary;
               userState ← assign_eventData userId userState
                             (fun d => EventData.set_preloadedPhotos
                                (default [] (EventData.preloadedPhotos d) ++ [uploadResult]) d);
               reply "✅ Photo added! Send more or /done" ;;
               mret userState
           | _ => mret userState
           end;
         when_throw (unlink_fails env) ;;
         userStates_set userId userState)
        (reply "❌ Failed to upload image")
  end.

(** *** [bot.command('done')] *)

(** The [for ... of] loop over the collected images; [i] counts the saves.
    Each [new Photo] takes its own default [uploadedAt]. *)
Fixpoint save_preloaded (eventId : string) (i : nat) (photos : list Image.t)
    : IO unit :=
  match photos with
  | [] => mret tt
  | photo :: rest =>
      Photo_save i (Photo.mk eventId (Image.public_id photo) (Image.url photo)
                      preloaded None true (now_at env i)) ;;
      save_preloaded eventId (S i) rest
  end.

Definition onDone (userId : string) : IO unit :=
  userState ← userStates_get userId;
  match userState with
  | Some userState =>
      if Step_eqb (UserState.step userState) preloadedPhotos
      then
        try_catch
          (Event_create (UserState.eventData userState) ;;
           eventData ← from_option mret throw (UserState.eventData userState);
           match EventData.preloadedPhotos eventData with
           | Some photos => save_preloaded (EventData.eventId eventData) 0 photos
           | None => mret tt
           end ;;
           let eventUrl := FRONTEND_URL env ++ "/event/" ++ EventData.eventId eventData in
           reply ("🎊 Event Complete!" ++ nl ++ "ID: " ++ EventData.eventId eventData
                  ++ nl ++ "URL: " ++ eventUrl ++ nl
                  ++ "Use /disable to stop uploads."))
          (reply "❌ Failed to create event") ;;
        userStates_delete userId
      else mret tt
  | None => mret tt
  end.

(** *** [bot.command('disable')] *)
Definition onDisable (userId : string) : IO unit :=
  userStates_set userId (UserState.mk eventIdForDisable None) ;;
  reply "Enter Event ID to disable uploads:".

(** *** [GET /api/events/:eventId] *)
Definition uploadEnabled (event : Event.t) : bool :=
  Status_eqb (Event.status event) active
  && negb (ServiceType_eqb (Event.serviceType event) viewalbum).

Definition getEvent (eventId : string) : IO Response :=
  try_catch
    (event ← Event_findOne eventId;
     match event with
     | None => mret (json 404 (ErrorBody "Event not found"))
     | Some (_, event) =>
         preloadedPhotos ← Photo_find_sorted (preloaded_of eventId);
         guestPhotos ← Photo_find_sorted (approved_guest_of eventId);
         mret (json 200 (EventBody event preloadedPhotos guestPhotos
                           (uploadEnabled event)))
     end)
    (mret (json 500 (ErrorBody "Server error"))).

(** *** [POST /api/upload/:eventId] *)

(** The guard [!event || event.status === 'disabled' ||
    event.serviceType === 'viewalbum']. *)
Definition uploads_not_allowed (event : option (nat * Event.t)) : bool :=
  match event with
  | None => true
  | Some (_, event) =>
      Status_eqb (Event.status event) disabled
      || ServiceType_eqb (Event.serviceType event) viewalbum
  end.

Definition postUpload (req : Request.t) : IO Response :=
  try_catch
    (event ← Event_findOne (Request.eventId req);
     if uploads_not_allowed event
     then mret (json 400 (ErrorBody "Uploads not allowed"))
     else
       (* [event] is a document from here on *)
       event ← from_option (fun found => mret (snd found)) throw event;
       guestUploadsCount ← Photo_countDocuments (Request.eventId req) (Request.ip req);
       if Event.uploadLimit event <=? guestUploadsCount
       then mret (json 400 (ErrorBody "Upload limit reached"))
       else
         (* [req.file.path]: a TypeError when no file came with the request *)
         from_option (fun _ => mret tt) throw (Request.file req) ;;
         uploadResult ← uploadToCloudinary;
         let photo :=
           Photo.mk (Request.eventId req) (Image.public_id uploadResult)
             (Image.url uploadResult) guest
             (Some (UploaderInfo.mk (Request.ip req) (Request.userAgent req)))
             true (now env) in
         Photo_save 0 photo ;;
         when_throw (unlink_fails env) ;;
         mret (json 200 (UploadBody true photo)))
    (mret (json 500 (ErrorBody "Upload failed"))).

End Handlers.

(** ** Running the system *)

(** The handlers of the bot and the routes of the server. *)
Inductive Operation : Type :=
| OpStart (userId : string)
| OpText (userId text : string)
| OpPhoto (userId : string)
| OpDone (userId : string)
| OpDisable (userId : string)
| OpGetEvent (eventId : string)
| OpUpload (req : Request.t).

(** The world after one operation has been handled. *)
Definition exec (env : Env) (op : Operation) (w : World) : World :=
  match op with
  | OpStart userId => snd (onStart env userId w)
  | OpText userId text => snd (onText env userId text w)
  | OpPhoto userId => snd (onPhoto env userId w)
  | OpDone userId => snd (onDone env userId w)
  | OpDisable userId => snd (onDisable userId w)
  | OpGetEvent eventId => snd (getEvent env eventId w)
  | OpUpload req => snd (postUpload env req w)
  end.

(** A run: each operation with the environment it meets. *)
Definition run (ops : list (Env * Operation)) (w : World) : World :=
  foldl (fun w eo => exec (fst eo) (snd eo) w) w ops.

Definition empty_world : World := mkWorld ∅ [] [] [].

(** An environment in which no collaborator fails. *)
Definition calm (t : Z) (token url : string) (img : option Image.t) : Env :=
  mkEnv t token url false false false (fun _ => false) false img false (fun _ => t).

(** ** The updates the bot receives *)

(** A text message or a photo message, with its sender. *)
Inductive Update : Type :=
| UpdText (userId text : string)
| UpdPhoto (userId : string).

(** A character that can continue the name of a bot command: a letter, a
    digit or an underscore. *)
Definition is_command_char (c : ascii) : bool :=
  let n := nat_of_ascii c in
  ((48 <=? n) && (n <=? 57) || (65 <=? n) && (n <=? 90)
   || (97 <=? n) && (n <=? 122) || (n =? 95))%nat.

(** The text opens with the command [/start]: the six characters, followed
    by the end of the text or by a character that cannot continue the name
    of a command (a mention [@botname] is taken to name this bot). *)
Definition is_start_command (text : string) : bool :=
  match text with
  | String "/" (String "s" (String "t" (String "a" (String "r" (String "t" rest))))) =>
      match rest with
      | EmptyString => true
      | String c _ => negb (is_command_char c)
      end
  | _ => false
  end.

(** The handler that takes an update: [bot.start] is registered first,
    then [bot.on('text')], which matches every text message and never
    calls [next], then [bot.on('photo')]; [bot.command('done')] and
    [bot.command('disable')] come after [bot.on('text')] and are never
    reached. *)
Definition route (u : Update) : Operation :=
  match u with
  | UpdText userId text =>
      if is_start_command text then OpStart userId else OpText userId text
  | UpdPhoto userId => OpPhoto userId
  end.

(** The world after the bot has received one update. *)
Definition receive (env : Env) (u : Update) (w : World) : World :=
  exec env (route u) w.

(** The world after the bot has received the updates one after the other. *)
Definition receive_all (updates : list (Env * Update)) (w : World) : World :=
  run ((fun eu => (fst eu, route (snd eu))) <$> updates) w.

(** * Vocabulary of the statements *)

(** The world after one more message has been sent. *)
Definition said (text : string) (w : World) : World :=
  mkWorld (userStates w) (Events w) (Photos w) (replies w ++ [text]).

(** The world with the session of [userId] replaced. *)
Definition with_session (userId : string) (us : UserState.t) (w : World) : World :=
  mkWorld (<[userId := us]> (userStates w)) (Events w) (Photos w) (replies w).

Definition without_session (userId : string) (w : World) : World :=
  mkWorld (delete userId (userStates w)) (Events w) (Photos w) (replies w).

Definition with_Events (events : list Event.t) (w : World) : World :=
  mkWorld (userStates w) events (Photos w) (replies w).

Definition with_Photos (photos : list Photo.t) (w : World) : World :=
  mkWorld (userStates w) (Events w) photos (replies w).

(** A step that stores [text] in the draft with [f] and moves on to [next]:
    the assignment to [userState.eventData] is a TypeError when the session
    has no draft. *)
Definition advance (userId : string) (w : World) (us : UserState.t)
    (f : EventData.t -> EventData.t) (next : Step) (prompt : string)
    : result unit * World :=
  match UserState.eventData us with
  | Some d => (Ok tt, said prompt (with_session userId (UserState.mk next (Some (f d))) w))
  | None => (Thrown, w)
  end.

(** The test [isNaN(limit) || limit < 1 || limit > 20], negated. *)
Definition limit_accepted (text : string) : option Z :=
  match parseInt text with
  | Some limit => if (limit <? 1) || (20 <? limit) then None else Some limit
  | None => None
  end.

(** A text of [n] characters. *)
Definition text_of_length (n : nat) : string :=
  string_of_list_ascii (repeat "a"%char n).

(** The Photo that the loop of [/done] saves for a collected image. *)
Definition preloaded_photo (env : Env) (eventId : string) (i : nat) (img : Image.t)
    : Photo.t :=
  Photo.mk eventId (Image.public_id img) (Image.url img) preloaded None true (now_at env i).

(** The Photos of the images [imgs], built at the saves [i], [i + 1], ... *)
Fixpoint preloaded_photos (env : Env) (eventId : string) (i : nat)
    (imgs : list Image.t) : list Photo.t :=
  match imgs with
  | [] => []
  | img :: rest =>
      preloaded_photo env eventId i img :: preloaded_photos env eventId (S i) rest
  end.

(** How many of the collected images are saved before a save rejects: the
    [i]-th save rejects when the store fails it or the Photo misses a
    required path. *)
Fixpoint saved_count (env : Env) (eventId : string) (i : nat)
    (photos : list Image.t) : nat :=
  match photos with
  | [] => 0
  | img :: rest =>
      if photo_save_fails env i then 0%nat
      else if Photo_valid (preloaded_photo env eventId i img)
      then S (saved_count env eventId (S i) rest)
      else 0%nat
  end.

(** The Event that [/done] creates, when the store takes it. *)
Definition created_event (env : Env) (us : UserState.t) (w : World) : option Event.t :=
  if event_save_fails env then None
  else match Event_new (now env) (UserState.eventData us) with
       | None => None
       | Some event =>
           if existsb (fun e => String.eqb (Event.eventId e) (Event.eventId event)) (Events w)
           then None else Some event
       end.

Definition complete_message (env : Env) (eventId : string) : string :=
  "🎊 Event Complete!" ++ nl ++ "ID: " ++ eventId ++ nl ++ "URL: "
  ++ (FRONTEND_URL env ++ "/event/" ++ eventId) ++ nl
  ++ "Use /disable to stop uploads.".

(** The value of [guestUploadsCount]. *)
Definition prior_uploads (eventId ip : string) (w : World) : Z :=
  Z.of_nat (length (filter (fun p => guest_upload_of eventId ip p = true) (Photos w))).

(** The Photo that the route builds from the transferred image. *)
Definition guest_photo (env : Env) (req : Request.t) (img : Image.t) : Photo.t :=
  Photo.mk (Request.eventId req) (Image.public_id img) (Image.url img) guest
    (Some (UploaderInfo.mk (Request.ip req) (Request.userAgent req))) true (now env).

Definition not_allowed : Response := json 400 (ErrorBody "Uploads not allowed").
Definition limit_reached : Response := json 400 (ErrorBody "Upload limit reached").
Definition upload_failed : Response := json 500 (ErrorBody "Upload failed").

(** What a user can send to the bot once a conversation is under way: a
    text, a photo, or the completion command, which is the text [/done]. *)
Inductive Message : Type :=
| MsgText (text : string)
| MsgPhoto
| MsgDone.

(** The handler that takes a message of a conversation under way.  The
    completion command goes to the text handler like any other text:
    [bot.on('text')] is registered before [bot.command('done')] and never
    calls [next]. *)
Definition deliver (userId : string) (m : Message) : Operation :=
  match m with
  | MsgText text => OpText userId text
  | MsgPhoto => OpPhoto userId
  | MsgDone => OpText userId "/done"
  end.

(** The user an update comes from. *)
Definition update_sender (u : Update) : string :=
  match u with
  | UpdText userId _ | UpdPhoto userId => userId
  end.

(** The update is the start command, which opens a new session in any
    step. *)
Definition starts_session (u : Update) : bool :=
  match u with
  | UpdText _ text => is_start_command text
  | UpdPhoto _ => false
  end.

(** The value of a text that is made of decimal digits only, read after
    the digits that gave [acc]. *)
Fixpoint decimal_numeral (s : string) (acc : Z) : option Z :=
  match s with
  | EmptyString => Some acc
  | String c rest =>
      match radixDigit 10 c with
      | Some v => decimal_numeral rest (10 * acc + v)
      | None => None
      end
  end.

(** The integer a text denotes when the whole of it is an integer numeral:
    an optional sign, then one decimal digit or more, and nothing else. *)
Definition integer_literal (text : string) : option Z :=
  match text with
  | EmptyString => None
  | String "-" EmptyString => None
  | String "+" EmptyString => None
  | String "-" rest => Z.opp <$> decimal_numeral rest 0
  | String "+" rest => decimal_numeral rest 0
  | String _ _ => decimal_numeral text 0
  end.

(** The validation column of the state table of the specification
    (section 4.1), on the updates the bot receives: what each step is said
    to accept.  "Parses to integer in [1,20]" is read as: the text is an
    integer numeral, and its value lies between 1 and 20.  The completion
    signal is the text [/done]. *)
Definition step_valid (w : World) (s : Step) (u : Update) : bool :=
  match s, u with
  | welcomeText, UpdText _ text => (String.length text <=? 100)%nat
  | description, UpdText _ text => (String.length text <=? 200)%nat
  | backgroundImage, UpdPhoto _ => true
  | serviceType, UpdText _ text => includes ["/both"; "/viewalbum"; "/uploadpics"] text
  | uploadLimit, UpdText _ text =>
      match integer_literal text with
      | Some n => (1 <=? n) && (n <=? 20)
      | None => false
      end
  | preloadedPhotos, UpdPhoto _ => true
  | preloadedPhotos, UpdText _ text => String.eqb text "/done"
  | eventIdForDisable, UpdText _ text =>
      bool_decide (is_Some (list_find (fun e => Event.eventId e = text) (Events w)))
  | _, _ => false
  end.

(** The tests the handlers make, step by step: the guards of
    [bot.on('text')] and the two steps in which [bot.on('photo')] stores
    the image.  The limit is tested on what [parseInt] reads.  No text is
    taken in the two steps that wait for an image, [/done] included. *)
Definition step_accepts (w : World) (s : Step) (u : Update) : bool :=
  match s, u with
  | welcomeText, UpdText _ text => negb (100 <? String.length text)%nat
  | description, UpdText _ text => negb (200 <? String.length text)%nat
  | backgroundImage, UpdPhoto _ => true
  | serviceType, UpdText _ text => includes ["/both"; "/viewalbum"; "/uploadpics"] text
  | uploadLimit, UpdText _ text =>
      match parseInt text with
      | Some limit => negb ((limit <? 1) || (20 <? limit))
      | None => false
      end
  | preloadedPhotos, UpdPhoto _ => true
  | eventIdForDisable, UpdText _ text =>
      bool_decide (is_Some (list_find (fun e => Event.eventId e = text) (Events w)))
  | _, _ => false
  end.

(** [d'] holds what [d] holds in every field but [uploadLimit]. *)
Definition same_but_uploadLimit (d d' : EventData.t) : Prop :=
  EventData.eventId d' = EventData.eventId d
  /\ EventData.createdBy d' = EventData.createdBy d
  /\ EventData.welcomeText d' = EventData.welcomeText d
  /\ EventData.description d' = EventData.description d
  /\ EventData.backgroundImage d' = EventData.backgroundImage d
  /\ EventData.serviceType d' = EventData.serviceType d
  /\ EventData.preloadedPhotos d' = EventData.preloadedPhotos d.

(** [d'] holds what [d] holds in every field but [backgroundImage]. *)
Definition same_but_backgroundImage (d d' : EventData.t) : Prop :=
  EventData.eventId d' = EventData.eventId d
  /\ EventData.createdBy d' = EventData.createdBy d
  /\ EventData.welcomeText d' = EventData.welcomeText d
  /\ EventData.description d' = EventData.description d
  /\ EventData.serviceType d' = EventData.serviceType d
  /\ EventData.uploadLimit d' = EventData.uploadLimit d
  /\ EventData.preloadedPhotos d' = EventData.preloadedPhotos d.

(** The rejection kinds of the Gatekeeper. *)
Inductive Rejection : Type := NotFound | UploadsDisabled | QuotaExceeded.

(** The kind a response of the upload route stands for, after the error
    mapping of the specification (section 7): status 404 for [NotFound],
    and under status 400 the message tells the gate from the quota. *)
Definition rejection_of (r : Response) : option Rejection :=
  if statusCode r =? 404 then Some NotFound
  else if statusCode r =? 400 then
    match body r with
    | ErrorBody msg =>
        if String.eqb msg "Uploads not allowed" then Some UploadsDisabled
        else if String.eqb msg "Upload limit reached" then Some QuotaExceeded
        else None
    | _ => None
    end
  else None.

(** The answer of a run of the route, as a rejection kind. *)
Definition rejection (r : result Response * World) : option Rejection :=
  match fst r with
  | Ok response => rejection_of response
  | Thrown => None
  end.

(** The submission was admitted: the route answered with the new Photo. *)
Definition admitted (r : result Response * World) : bool :=
  match fst r with
  | Ok (json 200 (UploadBody true _)) => true
  | _ => false
  end.

(** The transfer to the image host and the writes of one request go
    through: a file came with the request, the host returns [img], and the
    Photo built from it is accepted by the store. *)
Definition storage_ok (env : Env) (req : Request.t) (img : Image.t) : Prop :=
  find_fails env = false /\ count_fails env = false
  /\ is_Some (Request.file req) /\ cloudinary env = Some img
  /\ Photo_valid (guest_photo env req img) = true
  /\ photo_save_fails env 0 = false /\ unlink_fails env = false.

(** Sample data. *)
Definition sample_image : Image.t := Image.mk "events/img1" "https://img.example/img1".
Definition quiet : Env := calm 1700000000000 "K3X9A7PQ2" "https://album.example" (Some sample_image).
Definition sample_request : Request.t :=
  Request.mk "EVT_K3X9A7PQ2" "203.0.113.7" (Some "Mozilla/5.0") (Some "uploads/3f2a").
Definition sample_event (limit : Z) (mode : ServiceType) (st : Status) : Event.t :=
  Event.mk "EVT_K3X9A7PQ2" "Hi" "Party" (Some sample_image) mode limit [] "42" st 1700000000000.
Definition world_of (events : list Event.t) : World := mkWorld ∅ events [] [].
Definition disabled_world : World := world_of [sample_event 5 both disabled].

Definition nonempty (s : string) : bool := negb (String.eqb s "").

(** The draft holds everything the creation chain collects: both texts
    within their limits, the background image, one of the three service
    types, a limit between 1 and 20, and for every collected image the
    storage id and URL the image host returned. *)
Definition fully_collected (d : EventData.t) : bool :=
  nonempty (EventData.eventId d) && nonempty (EventData.createdBy d)
  && match EventData.welcomeText d with
     | Some s => nonempty s && (String.length s <=? 100)%nat
     | None => false
     end
  && match EventData.description d with
     | Some s => nonempty s && (String.length s <=? 200)%nat
     | None => false
     end
  && bool_decide (is_Some (EventData.backgroundImage d))
  && match EventData.serviceType d with
     | Some s => includes ["both"; "viewalbum"; "uploadpics"] s
     | None => false
     end
  && match EventData.uploadLimit d with
     | Some n => (1 <=? n) && (n <=? 20)
     | None => false
     end
  && forallb (fun img => nonempty (Image.public_id img) && nonempty (Image.url img))
       (default [] (EventData.preloadedPhotos d)).

(** A draft with one collected image, as the creation chain builds it. *)
Definition sample_draft : EventData.t :=
  EventData.mk "EVT_K3X9A7PQ2" "42" (Some "Hi") (Some "Party") (Some sample_image)
    (Some "both") (Some 1) (Some [sample_image]).

Definition ready_world : World :=
  mkWorld {[ "42" := UserState.mk preloadedPhotos (Some sample_draft) ]} [] [] [].


(** A session that is not in the disable flow carries a draft. *)
Definition has_draft (us : UserState.t) : Prop :=
  UserState.step us = eventIdForDisable \/ is_Some (UserState.eventData us).

Definition sessions_ok (w : World) : Prop :=
  forall userId us, userStates w !! userId = Some us -> has_draft us.

(** [e'] is [e] up to its status. *)
Definition same_but_status (e e' : Event.t) : Prop :=
  Event.set_status (Event.status e) e' = e.

(** Every event of [before] is still there, at its place and up to its
    status; events may have been appended. *)
Definition events_kept (before after : list Event.t) : Prop :=
  exists kept created,
    after = (kept ++ created)%list /\ Forall2 same_but_status before kept.

(** A conversation that walks the creation chain. *)
Definition sample_chain : list (Env * Operation) :=
  [(quiet, OpStart "42"); (quiet, OpText "42" "Hi"); (quiet, OpText "42" "Party");
   (quiet, OpPhoto "42"); (quiet, OpText "42" "/both"); (quiet, OpText "42" "1");
   (quiet, OpPhoto "42")].

Definition session_world (us : UserState.t) : World :=
  mkWorld {[ "42" := us ]} [] [] [].

Definition fresh_draft : EventData.t :=
  EventData.mk "EVT_K3X9A7PQ2" "42" None None None None None None.

(** ** Vocabulary of the further properties *)

Definition photo_failed : string := "❌ Failed to upload image".

(** The images a draft has collected, [undefined] read as none. *)
Definition collected (d : EventData.t) : list Image.t :=
  default [] (EventData.preloadedPhotos d).

(** The draft after [preloadedPhotos.push(img)]. *)
Definition add_image (d : EventData.t) (img : Image.t) : EventData.t :=
  EventData.set_preloadedPhotos (collected d ++ [img]) d.

(** The photo messages of one user, each with the environment it meets. *)
Definition photo_messages (userId : string) (envs : list Env) : list (Env * Operation) :=
  (fun env => (env, OpPhoto userId)) <$> envs.

(** The image host answers [img] and the download succeeds. *)
Definition delivers (env : Env) (img : Image.t) : Prop :=
  download_fails env = false /\ cloudinary env = Some img.

(** [d'] is [d] up to the collected images. *)
Definition same_but_photos (d d' : EventData.t) : Prop :=
  EventData.set_preloadedPhotos [] d' = EventData.set_preloadedPhotos [] d.

(** The user a bot update comes from; the HTTP routes have none. *)
Definition sender (op : Operation) : option string :=
  match op with
  | OpStart u | OpText u _ | OpPhoto u | OpDone u | OpDisable u => Some u
  | OpGetEvent _ | OpUpload _ => None
  end.

(** The order of the creation chain. *)
Definition next_step (s : Step) : option Step :=
  match s with
  | welcomeText => Some description
  | description => Some backgroundImage
  | backgroundImage => Some serviceType
  | serviceType => Some uploadLimit
  | uploadLimit => Some preloadedPhotos
  | preloadedPhotos | eventIdForDisable => None
  end.

(** The changes a text message can make to a session. *)
Inductive text_advances (text : string) : UserState.t -> UserState.t -> Prop :=
| adv_welcomeText d :
    (String.length text <= 100)%nat ->
    text_advances text (UserState.mk welcomeText (Some d))
      (UserState.mk description (Some (EventData.set_welcomeText text d)))
| adv_description d :
    (String.length text <= 200)%nat ->
    text_advances text (UserState.mk description (Some d))
      (UserState.mk backgroundImage (Some (EventData.set_description text d)))
| adv_serviceType d :
    includes ["/both"; "/viewalbum"; "/uploadpics"] text = true ->
    text_advances text (UserState.mk serviceType (Some d))
      (UserState.mk uploadLimit (Some (EventData.set_serviceType (replace_slash text) d)))
| adv_uploadLimit d n :
    parseInt text = Some n -> 1 <= n <= 20 ->
    text_advances text (UserState.mk uploadLimit (Some d))
      (UserState.mk preloadedPhotos (Some (EventData.set_uploadLimit n d))).

(** The changes a photo message can make to a session. *)
Inductive photo_advances (env : Env) : UserState.t -> UserState.t -> Prop :=
| adv_backgroundImage d img :
    cloudinary env = Some img ->
    photo_advances env (UserState.mk backgroundImage (Some d))
      (UserState.mk serviceType (Some (EventData.set_backgroundImage img d)))
| adv_preloadedPhotos d img :
    cloudinary env = Some img ->
    photo_advances env (UserState.mk preloadedPhotos (Some d))
      (UserState.mk preloadedPhotos (Some (add_image d img)))
| adv_empty_list d :
    EventData.preloadedPhotos d = None ->
    photo_advances env (UserState.mk preloadedPhotos (Some d))
      (UserState.mk preloadedPhotos (Some (EventData.set_preloadedPhotos [] d))).

(** The position of a step in the creation chain. *)
Definition rank (s : Step) : nat :=
  match s with
  | welcomeText | eventIdForDisable => 0
  | description => 1
  | backgroundImage => 2
  | serviceType => 3
  | uploadLimit => 4
  | preloadedPhotos => 5
  end.

(** What a draft holds when its session is in step [s]: every field the
    earlier steps collect, within its bounds, and no image before the last
    step. *)
Definition draft_upto (s : Step) (d : EventData.t) : Prop :=
  ((1 <= rank s)%nat ->
     exists t, EventData.welcomeText d = Some t /\ (String.length t <= 100)%nat)
  /\ ((2 <= rank s)%nat ->
        exists t, EventData.description d = Some t /\ (String.length t <= 200)%nat)
  /\ ((3 <= rank s)%nat -> is_Some (EventData.backgroundImage d))
  /\ ((4 <= rank s)%nat ->
        exists t, EventData.serviceType d = Some t
                  /\ In t ["both"; "viewalbum"; "uploadpics"])
  /\ ((5 <= rank s)%nat ->
        exists n, EventData.uploadLimit d = Some n /\ 1 <= n <= 20)
  /\ ((rank s < 5)%nat -> EventData.preloadedPhotos d = None).

(** The session stored for [userId] is one the handlers build: without a
    draft it is in the disable flow; with a draft it is in the creation
    chain, the draft was seeded by [/start] for this user and holds what
    the steps so far collect. *)
Definition session_wf (userId : string) (us : UserState.t) : Prop :=
  match UserState.eventData us with
  | None => UserState.step us = eventIdForDisable
  | Some d =>
      UserState.step us <> eventIdForDisable
      /\ EventData.createdBy d = userId
      /\ (exists token, EventData.eventId d = "EVT_" ++ token)
      /\ draft_upto (UserState.step us) d
  end.

Definition sessions_wf (w : World) : Prop :=
  forall userId us, userStates w !! userId = Some us -> session_wf userId us.

(** The ways one operation can change the two collections: not at all; the
    status of one Event set to disabled; one Event created by [/done],
    followed by the Photos of the images saved before the first rejected
    save; one guest Photo stored by the upload route for an Event that
    passed the gate with quota left. *)
Inductive store_step (env : Env) (w w' : World) : Prop :=
| store_same :
    Events w' = Events w -> Photos w' = Photos w -> store_step env w w'
| store_disabled i event :
    Events w !! i = Some event ->
    Events w' = <[i := Event.set_status disabled event]> (Events w) ->
    Photos w' = Photos w ->
    store_step env w w'
| store_created us d event :
    created_event env us w = Some event ->
    UserState.eventData us = Some d ->
    Events w' = (Events w ++ [event])%list ->
    Photos w'
    = (Photos w
       ++ preloaded_photos env (EventData.eventId d) 0
            (take (saved_count env (EventData.eventId d) 0 (collected d)) (collected d)))%list ->
    store_step env w w'
| store_uploaded req img i event :
    list_find (fun e => Event.eventId e = Request.eventId req) (Events w) = Some (i, event) ->
    Event.status event = active ->
    Event.serviceType event <> viewalbum ->
    prior_uploads (Request.eventId req) (Request.ip req) w < Event.uploadLimit event ->
    Photo_valid (guest_photo env req img) = true ->
    Events w' = Events w ->
    Photos w' = (Photos w ++ [guest_photo env req img])%list ->
    store_step env w w'.

(** The bounds of the Event schema. *)
Definition Event_ok (e : Event.t) : Prop :=
  Event.eventId e <> ""
  /\ Event.welcomeText e <> "" /\ (String.length (Event.welcomeText e) <= 100)%nat
  /\ Event.description e <> "" /\ (String.length (Event.description e) <= 200)%nat
  /\ 1 <= Event.uploadLimit e <= 20
  /\ Event.createdBy e <> "".

(** What every stored Photo looks like: its required paths are filled, it
    is approved, and it carries the uploader exactly when it is a guest
    upload. *)
Definition Photo_ok (p : Photo.t) : Prop :=
  Photo.eventId p <> "" /\ Photo.public_id p <> "" /\ Photo.url p <> ""
  /\ Photo.approved p = true
  /\ (Photo.uploadType p = guest <-> is_Some (Photo.uploaderInfo p)).

(** Every Photo belongs to an Event of the store. *)
Definition photos_refer (w : World) : Prop :=
  Forall (fun p => Photo.eventId p ∈ (Event.eventId <$> Events w)) (Photos w).

(** Newest first: no Photo comes after an older one. *)
Definition newest_first (l : list Photo.t) : Prop :=
  StronglySorted (fun p q => Photo.uploadedAt q <= Photo.uploadedAt p) l.

Definition server_error : Response := json 500 (ErrorBody "Server error").
Definition event_not_found : Response := json 404 (ErrorBody "Event not found").

(** The photo updates of one user, each with the environment it meets. *)
Definition photo_updates (userId : string) (envs : list Env) : list (Env * Update) :=
  (fun env => (env, UpdPhoto userId)) <$> envs.

(** The updates of one whole conversation of [userId], as the bot
    receives them: the start command, the welcome text, the description,
    the background image, the service type, the limit, the preloaded
    images and the completion command [/done]. *)
Definition conversation (userId : string) (env : Env) (welcome descr : string)
    (env_bg : Env) (service limit : string) (env_photos : list Env) (env_done : Env)
    : list (Env * Update) :=
  ([(env, UpdText userId "/start"); (env, UpdText userId welcome);
    (env, UpdText userId descr); (env_bg, UpdPhoto userId);
    (env, UpdText userId service); (env, UpdText userId limit)]
   ++ photo_updates userId env_photos ++ [(env_done, UpdText userId "/done")])%list.

(** No session is in the disable flow. *)
Definition no_disable_session (w : World) : Prop :=
  forall userId us,
    userStates w !! userId = Some us -> UserState.step us <> eventIdForDisable.

(** The updates of the sample conversation, completion command included. *)
Definition sample_updates : list (Env * Update) :=
  conversation "42" quiet "Hi" "Party" quiet "/both" "1" [quiet] quiet.

(** The session of user 42 waits for the limit. *)
Definition limit_world : World :=
  session_world (UserState.mk uploadLimit (Some fresh_draft)).

(** A decimal digit, as [parseInt] reads it in radix 10. *)
Definition is_decimal (c : ascii) : bool :=
  match radixDigit 10 c with Some _ => true | None => false end.

(** Every character of the string satisfies [f]. *)
Fixpoint string_forall (f : ascii -> bool) (s : string) : bool :=
  match s with
  | EmptyString => true
  | String c rest => f c && string_forall f rest
  end.

(** The first character of the string, if any, satisfies [f]. *)
Definition starts_with (f : ascii -> bool) (s : string) : bool :=
  match s with
  | EmptyString => false
  | String c _ => f c
  end.

(** More sample data: an image host that is down, sessions in the steps
    that wait for an image, a second image and a store with one guest
    Photo. *)
Definition host_down : Env := calm 1700000000000 "K3X9A7PQ2" "https://album.example" None.
Definition background_world : World :=
  session_world (UserState.mk backgroundImage (Some fresh_draft)).
Definition other_image : Image.t := Image.mk "events/img2" "https://img.example/img2".
Definition quiet2 : Env :=
  calm 1700000000500 "K3X9A7PQ2" "https://album.example" (Some other_image).
Definition disabling_world : World :=
  mkWorld {[ "7" := UserState.mk eventIdForDisable None ]}
    [sample_event 5 both active] [] [].
Definition unlink_failing : Env :=
  mkEnv 1700000000000 "K3X9A7PQ2" "https://album.example" false false false
    (fun _ => false) false (Some sample_image) true (fun _ => 1700000000000).
Definition other_request : Request.t :=
  Request.mk "EVT_K3X9A7PQ2" "198.51.100.9" None (Some "uploads/77aa").

(** * Verification *)

#[local] Arguments Nat.ltb : simpl never.
#[local] Arguments Nat.leb : simpl never.
#[local] Arguments Z.ltb : simpl never.
#[local] Arguments Z.leb : simpl never.
#[local] Arguments Z.of_nat : simpl never.
#[local] Arguments String.eqb : simpl never.
#[local] Arguments String.append : simpl never.
#[local] Arguments parseInt : simpl never.
#[local] Arguments includes : simpl never.
#[local] Arguments replace_slash : simpl never.

(** ** Worlds *)

Lemma World_eta (w : World) :
  mkWorld (userStates w) (Events w) (Photos w) (replies w) = w.
Proof. destruct w; reflexivity. Qed.

(** Unfolds the monad and the session primitives. *)
Ltac io :=
  repeat (progress (
    unfold mbind, mret, IO_bind, IO_ret, assign_eventData, assign_step, assign,
      userStates_set, userStates_get, userStates_delete, reply, try_catch, throw,
      when_throw; cbn)).

(** ** The text handler, step by step *)

Section TextSteps.

Variables (env : Env) (userId : string) (w : World).

Lemma onText_no_session text :
  userStates w !! userId = None -> onText env userId text w = (Ok tt, w).
Proof. intros H. unfold onText. io. rewrite H. reflexivity. Qed.

Lemma advance_eq us f next prompt :
  (userState ← assign_eventData userId us f;
   userState ← assign_step userId userState next;
   reply prompt ;; mret (Some userState)) w =
  match UserState.eventData us with
  | Some d =>
      let us' := UserState.mk next (Some (f d)) in
      (Ok (Some us'), said prompt (with_session userId us' w))
  | None => (Thrown, w)
  end.
Proof.
  io. destruct (UserState.eventData us); cbn; [|reflexivity].
  unfold said, with_session; cbn. rewrite insert_insert_eq. reflexivity.
Qed.

Lemma onText_welcomeText text us :
  userStates w !! userId = Some us ->
  UserState.step us = welcomeText ->
  onText env userId text w =
    if (100 <? String.length text)%nat
    then (Ok tt, said "❌ Too long! Max 100 chars:" w)
    else advance userId w us (EventData.set_welcomeText text) description
           "✅ Now enter description (max 200 chars):".
Proof.
  intros H Hs. unfold onText, advance.
  unfold mbind at 1, IO_bind at 1, userStates_get. rewrite H, Hs.
  destruct (100 <? String.length text)%nat; [reflexivity|].
  unfold mbind at 1, IO_bind at 1. rewrite advance_eq.
  destruct (UserState.eventData us); io; [|reflexivity].
  unfold said, with_session; cbn. rewrite insert_insert_eq. reflexivity.
Qed.

Lemma onText_description text us :
  userStates w !! userId = Some us ->
  UserState.step us = description ->
  onText env userId text w =
    if (200 <? String.length text)%nat
    then (Ok tt, said "❌ Too long! Max 200 chars:" w)
    else advance userId w us (EventData.set_description text) backgroundImage
           "✅ Now send background image:".
Proof.
  intros H Hs. unfold onText, advance.
  unfold mbind at 1, IO_bind at 1, userStates_get. rewrite H, Hs.
  destruct (200 <? String.length text)%nat; [reflexivity|].
  unfold mbind at 1, IO_bind at 1. rewrite advance_eq.
  destruct (UserState.eventData us); io; [|reflexivity].
  unfold said, with_session; cbn. rewrite insert_insert_eq. reflexivity.
Qed.

Lemma onText_serviceType text us :
  userStates w !! userId = Some us ->
  UserState.step us = serviceType ->
  onText env userId text w =
    if includes ["/both"; "/viewalbum"; "/uploadpics"] text
    then advance userId w us (EventData.set_serviceType (replace_slash text)) uploadLimit
           "✅ Enter upload limit (1-20):"
    else (Ok tt, said "❌ Use /both, /viewalbum, or /uploadpics" w).
Proof.
  intros H Hs. unfold onText, advance.
  unfold mbind at 1, IO_bind at 1, userStates_get. rewrite H, Hs.
  destruct (includes _ text); [|reflexivity].
  unfold mbind at 1, IO_bind at 1. cbn [negb]. rewrite advance_eq.
  destruct (UserState.eventData us); io; [|reflexivity].
  unfold said, with_session; cbn. rewrite insert_insert_eq. reflexivity.
Qed.

Lemma onText_uploadLimit text us :
  userStates w !! userId = Some us ->
  UserState.step us = uploadLimit ->
  onText env userId text w =
    match limit_accepted text with
    | Some limit =>
        advance userId w us (EventData.set_uploadLimit limit) preloadedPhotos
          "✅ Send preloaded photos (type /done when finished):"
    | None => (Ok tt, said "❌ Enter number 1-20:" w)
    end.
Proof.
  intros H Hs. unfold onText, advance, limit_accepted.
  unfold mbind at 1, IO_bind at 1, userStates_get. rewrite H, Hs.
  destruct (parseInt text) as [limit|]; [|reflexivity].
  destruct ((limit <? 1) || (20 <? limit)); [reflexivity|].
  unfold mbind at 1, IO_bind at 1. rewrite advance_eq.
  destruct (UserState.eventData us); io; [|reflexivity].
  unfold said, with_session; cbn. rewrite insert_insert_eq. reflexivity.
Qed.

(** Steps that wait for an image: a text message falls through the
    [switch]. *)
Lemma onText_falls_through text us :
  userStates w !! userId = Some us ->
  UserState.step us = backgroundImage \/ UserState.step us = preloadedPhotos ->
  onText env userId text w = (Ok tt, w).
Proof.
  intros H Hs. unfold onText. io. rewrite H. cbn.
  destruct Hs as [-> | ->]; io;
    rewrite (insert_id _ _ _ H), World_eta; reflexivity.
Qed.

(** The disable flow.  The [delete] is followed by the [set] after the
    [switch], which stores the session object again. *)
Lemma onText_eventIdForDisable text us :
  userStates w !! userId = Some us ->
  UserState.step us = eventIdForDisable ->
  onText env userId text w =
    if find_fails env then (Ok tt, said "❌ Failed to disable event" w)
    else match list_find (fun e => Event.eventId e = text) (Events w) with
         | None => (Ok tt, said "❌ Event not found" w)
         | Some (i, event) =>
             if event_save_fails env
             then (Ok tt, said "❌ Failed to disable event" w)
             else (Ok tt,
                   said ("✅ Uploads disabled for event: " ++ text)
                     (with_Events (<[i := Event.set_status disabled event]> (Events w)) w))
         end.
Proof.
  intros H Hs. unfold onText. io. rewrite H. cbn. rewrite Hs.
  unfold Event_findOne, Event_save. io.
  destruct (find_fails env); cbn.
  - unfold said; cbn. rewrite insert_delete_eq, (insert_id _ _ _ H). reflexivity.
  - destruct (list_find _ (Events w)) as [[i event]|]; cbn; [|reflexivity].
    destruct (event_save_fails env); cbn;
      unfold said, with_Events; cbn;
      rewrite insert_delete_eq, (insert_id _ _ _ H); reflexivity.
Qed.

End TextSteps.

(** ** Length limits of the two text fields *)

(** C6. In step [welcomeText] a text of exactly 100 characters is stored in
    the draft and the session moves on to [description], while a text of 101
    characters only draws the error message and leaves the session as it
    was; in step [description] the same holds at 200 and 201 characters,
    the next step being [backgroundImage]. *)
Theorem text_length_boundaries (env : Env) (userId : string) (w : World)
    (d : EventData.t) (text : string) :
  (userStates w !! userId = Some (UserState.mk welcomeText (Some d)) ->
     (String.length text = 100%nat ->
        onText env userId text w =
          (Ok tt,
           said "✅ Now enter description (max 200 chars):"
             (with_session userId
                (UserState.mk description (Some (EventData.set_welcomeText text d))) w)))
     /\ (String.length text = 101%nat ->
           onText env userId text w = (Ok tt, said "❌ Too long! Max 100 chars:" w)))
  /\
  (userStates w !! userId = Some (UserState.mk description (Some d)) ->
     (String.length text = 200%nat ->
        onText env userId text w =
          (Ok tt,
           said "✅ Now send background image:"
             (with_session userId
                (UserState.mk backgroundImage (Some (EventData.set_description text d))) w)))
     /\ (String.length text = 201%nat ->
           onText env userId text w = (Ok tt, said "❌ Too long! Max 200 chars:" w))).
Proof.
  split; intros H; split; intros Hlen.
  - rewrite (onText_welcomeText _ _ _ _ _ H eq_refl), Hlen. reflexivity.
  - rewrite (onText_welcomeText _ _ _ _ _ H eq_refl), Hlen. reflexivity.
  - rewrite (onText_description _ _ _ _ _ H eq_refl), Hlen. reflexivity.
  - rewrite (onText_description _ _ _ _ _ H eq_refl), Hlen. reflexivity.
Qed.

(** ** The upload limit *)

Lemma limit_accepted_Some text n :
  limit_accepted text = Some n <-> parseInt text = Some n /\ 1 <= n <= 20.
Proof.
  unfold limit_accepted. destruct (parseInt text) as [limit|].
  - destruct (Z.ltb_spec limit 1); cbn.
    + split; [discriminate|]. intros [[= ->] ?]. lia.
    + destruct (Z.ltb_spec 20 limit); cbn.
      * split; [discriminate|]. intros [[= ->] ?]. lia.
      * split; [intros [= ->]; split; [reflexivity|lia] | intros [[= ->] _]; reflexivity].
  - split; [discriminate | intros [[=] _]].
Qed.

Lemma limit_accepted_None text :
  limit_accepted text = None <->
  (forall n, parseInt text = Some n -> n < 1 \/ 20 < n).
Proof.
  split.
  - intros Hnone n Hn.
    destruct (Z.lt_ge_cases n 1) as [?|?]; [left; assumption|].
    destruct (Z.lt_ge_cases 20 n) as [?|?]; [right; assumption|].
    assert (limit_accepted text = Some n) as Hsome
      by (apply limit_accepted_Some; split; [assumption|lia]).
    congruence.
  - intros Hall. destruct (limit_accepted text) as [n|] eqn:E; [|reflexivity].
    apply limit_accepted_Some in E as [Hn Hrange].
    destruct (Hall n Hn); lia.
Qed.

(** A text that starts with a decimal digit is read in radix 10, unless it
    starts with 0x or 0X. *)
Lemma parseInt_decimal_start c s :
  is_decimal c = true ->
  (c = "0"%char -> starts_with (fun c2 => Ascii.eqb c2 "x" || Ascii.eqb c2 "X") s = false) ->
  parseInt (String c s)
  = match parseDigits 10 (String c s) None with
    | Some mathInt => Some (1 * mathInt)
    | None => None
    end.
Proof.
  intros Hc Hx.
  destruct c as [[] [] [] [] [] [] [] []]; try discriminate Hc; try reflexivity.
  specialize (Hx eq_refl). destruct s as [|c2 s2]; [reflexivity|].
  cbn in Hx.
  destruct c2 as [[] [] [] [] [] [] [] []]; try discriminate Hx; reflexivity.
Qed.

(** [parseInt] reads an integer numeral as the integer it denotes. *)
Lemma parseDigits_decimal s acc v :
  decimal_numeral s acc = Some v -> parseDigits 10 s (Some acc) = Some v.
Proof.
  revert acc. induction s as [|c rest IH]; intros acc; cbn.
  - congruence.
  - destruct (radixDigit 10 c) as [x|]; [|discriminate]. cbn. apply IH.
Qed.

Lemma decimal_numeral_first c rest v :
  decimal_numeral (String c rest) 0 = Some v ->
  is_decimal c = true
  /\ (c = "0"%char ->
      starts_with (fun c2 => Ascii.eqb c2 "x" || Ascii.eqb c2 "X") rest = false)
  /\ parseDigits 10 (String c rest) None = Some v.
Proof.
  cbn [decimal_numeral parseDigits]. unfold is_decimal.
  destruct (radixDigit 10 c) as [x|] eqn:Hc; [|discriminate].
  intros Hv. split; [reflexivity|]. split.
  - intros ->. destruct rest as [|c2 rest2]; [reflexivity|]. cbn.
    cbn [decimal_numeral] in Hv.
    destruct c2 as [[] [] [] [] [] [] [] []]; try reflexivity; discriminate Hv.
  - cbn [default]. apply parseDigits_decimal, Hv.
Qed.

Lemma parseInt_signed_start (minus : bool) c s :
  is_decimal c = true ->
  (c = "0"%char -> starts_with (fun c2 => Ascii.eqb c2 "x" || Ascii.eqb c2 "X") s = false) ->
  parseInt (String (if minus then "-" else "+")%char (String c s))
  = match parseDigits 10 (String c s) None with
    | Some mathInt => Some ((if minus then -1 else 1) * mathInt)
    | None => None
    end.
Proof.
  intros Hc Hx.
  destruct minus;
    (destruct c as [[] [] [] [] [] [] [] []]; try discriminate Hc; try reflexivity;
     specialize (Hx eq_refl); destruct s as [|c2 s2]; [reflexivity|];
     cbn in Hx;
     destruct c2 as [[] [] [] [] [] [] [] []]; try discriminate Hx; reflexivity).
Qed.

Lemma integer_literal_parseInt text n :
  integer_literal text = Some n -> parseInt text = Some n.
Proof.
  destruct text as [|c rest]; [discriminate|].
  destruct (Ascii.eqb_spec c "-") as [->|Hminus].
  { destruct rest as [|c2 rest2]; [discriminate|].
    change (Z.opp <$> decimal_numeral (String c2 rest2) 0 = Some n ->
            parseInt (String "-" (String c2 rest2)) = Some n).
    destruct (decimal_numeral (String c2 rest2) 0) as [v|] eqn:Hv; [|discriminate].
    intros [= <-]. apply decimal_numeral_first in Hv as (Hc & Hx & Hp).
    rewrite (parseInt_signed_start true c2 rest2 Hc Hx), Hp. f_equal; lia. }
  destruct (Ascii.eqb_spec c "+") as [->|Hplus].
  { destruct rest as [|c2 rest2]; [discriminate|].
    change (decimal_numeral (String c2 rest2) 0 = Some n ->
            parseInt (String "+" (String c2 rest2)) = Some n).
    intros Hv. apply decimal_numeral_first in Hv as (Hc & Hx & Hp).
    rewrite (parseInt_signed_start false c2 rest2 Hc Hx), Hp. f_equal; lia. }
  assert (integer_literal (String c rest) = decimal_numeral (String c rest) 0) as ->.
  { destruct c as [[] [] [] [] [] [] [] []]; try reflexivity; congruence. }
  intros Hv. apply decimal_numeral_first in Hv as (Hc & Hx & Hp).
  rewrite (parseInt_decimal_start c rest Hc Hx), Hp. f_equal; lia.
Qed.

(** C7, as the code has it. In step [uploadLimit] the text is read by
    [parseInt], which takes the integer at its start and ignores the rest.
    A text in which [parseInt] finds no integer between 1 and 20 (none at
    all, or one below 1 or above 20) only draws the error message and
    leaves the session as it was; a text in which it finds one moves the
    session on to [preloadedPhotos] with that integer as the draft's
    [uploadLimit] and the rest of the draft as it was.  An integer numeral
    is read as the integer it denotes; ["1"] and ["20"] are stored as 1 and
    20. *)
Theorem uploadLimit_validation (env : Env) (userId : string) (w : World)
    (d : EventData.t) (text : string) :
  userStates w !! userId = Some (UserState.mk uploadLimit (Some d)) ->
  let rejected :=
    onText env userId text w = (Ok tt, said "❌ Enter number 1-20:" w) in
  let accepted n :=
    exists d',
      onText env userId text w =
        (Ok tt,
         said "✅ Send preloaded photos (type /done when finished):"
           (with_session userId (UserState.mk preloadedPhotos (Some d')) w))
      /\ EventData.uploadLimit d' = Some n
      /\ same_but_uploadLimit d d' in
  ((forall n, parseInt text = Some n -> n < 1 \/ 20 < n) -> rejected)
  /\ (forall n, parseInt text = Some n -> 1 <= n <= 20 -> accepted n)
  /\ (forall n, integer_literal text = Some n -> parseInt text = Some n)
  /\ (text = "1" -> accepted 1)
  /\ (text = "20" -> accepted 20).
Proof.
  intros H rejected accepted. subst rejected accepted. cbn beta.
  rewrite (onText_uploadLimit _ _ _ _ _ H eq_refl).
  unfold advance; cbn [UserState.eventData].
  assert (forall n, limit_accepted text = Some n ->
            exists d',
              match limit_accepted text with
              | Some limit =>
                  (Ok tt,
                   said "✅ Send preloaded photos (type /done when finished):"
                     (with_session userId
                        (UserState.mk preloadedPhotos
                           (Some (EventData.set_uploadLimit limit d))) w))
              | None => (Ok tt, said "❌ Enter number 1-20:" w)
              end
              = (Ok tt,
                 said "✅ Send preloaded photos (type /done when finished):"
                   (with_session userId (UserState.mk preloadedPhotos (Some d')) w))
              /\ EventData.uploadLimit d' = Some n
              /\ same_but_uploadLimit d d') as Hacc.
  { intros n ->. exists (EventData.set_uploadLimit n d).
    split; [reflexivity|]. split; [reflexivity|]. repeat split. }
  split; [|split; [|split; [|split]]].
  - intros Hbad. apply limit_accepted_None in Hbad. rewrite Hbad. reflexivity.
  - intros n Hn Hrange. apply Hacc, limit_accepted_Some. split; assumption.
  - apply integer_literal_parseInt.
  - intros ->. apply Hacc. reflexivity.
  - intros ->. apply Hacc. reflexivity.
Qed.

(** C7 fails as stated: texts that are no integer between 1 and 20 are
    accepted for the digits they start with, "5abc" as 5, "1e3" as 1 and
    "3.9" as 3. *)
Lemma uploadLimit_accepts_non_integers :
  integer_literal "5abc" = None /\ integer_literal "1e3" = None
  /\ integer_literal "3.9" = None
  /\ userStates (receive quiet (UpdText "42" "5abc") limit_world) !! "42"
     = Some (UserState.mk preloadedPhotos
               (Some (EventData.mk "EVT_K3X9A7PQ2" "42" None None None None (Some 5) None)))
  /\ userStates (receive quiet (UpdText "42" "1e3") limit_world) !! "42"
     = Some (UserState.mk preloadedPhotos
               (Some (EventData.mk "EVT_K3X9A7PQ2" "42" None None None None (Some 1) None)))
  /\ userStates (receive quiet (UpdText "42" "3.9") limit_world) !! "42"
     = Some (UserState.mk preloadedPhotos
               (Some (EventData.mk "EVT_K3X9A7PQ2" "42" None None None None (Some 3) None))).
Proof. repeat split; reflexivity. Qed.

(** ** The photo handler *)

Section PhotoSteps.

Variables (env : Env) (userId : string) (w : World).

Lemma onPhoto_no_session :
  userStates w !! userId = None -> onPhoto env userId w = (Ok tt, w).
Proof. intros H. unfold onPhoto. io. rewrite H. reflexivity. Qed.

(** A photo sent in a step that does not wait for an image is fetched and
    dropped. *)
Lemma onPhoto_wrong_step us :
  userStates w !! userId = Some us ->
  UserState.step us <> backgroundImage ->
  UserState.step us <> preloadedPhotos ->
  onPhoto env userId w =
    if download_fails env || unlink_fails env
    then (Ok tt, said "❌ Failed to upload image" w)
    else (Ok tt, w).
Proof.
  intros H Hb Hp. unfold onPhoto. io. rewrite H. cbn.
  destruct (download_fails env); cbn; [reflexivity|].
  destruct (UserState.step us); try congruence; io;
    (destruct (unlink_fails env); cbn;
     [reflexivity | rewrite (insert_id _ _ _ H), World_eta; reflexivity]).
Qed.

(** The photo handler writes to no collection and to no session but the
    sender's. *)
Lemma onPhoto_frame :
  let w' := snd (onPhoto env userId w) in
  Events w' = Events w /\ Photos w' = Photos w
  /\ forall v, v <> userId -> userStates w' !! v = userStates w !! v.
Proof.
  unfold onPhoto, uploadToCloudinary. io.
  destruct (userStates w !! userId) as [us|] eqn:H; cbn; [|auto].
  destruct (download_fails env); cbn; [auto|].
  destruct us as [step [d|]]; cbn;
    destruct step, (cloudinary env), (unlink_fails env); io;
    try destruct (EventData.preloadedPhotos d); io;
    (split; [reflexivity | split; [reflexivity |]]);
    intros v Hv; rewrite ?lookup_insert_ne by congruence; reflexivity.
Qed.

End PhotoSteps.

(** ** Finalization *)

Lemma save_preloaded_eq env eventId i photos w :
  save_preloaded env eventId i photos w =
    (if (saved_count env eventId i photos =? length photos)%nat then Ok tt else Thrown,
     with_Photos
       (Photos w ++ preloaded_photos env eventId i (take (saved_count env eventId i photos) photos))
       w).
Proof.
  revert i w. induction photos as [|img rest IH]; intros i w.
  - cbn. unfold with_Photos. rewrite app_nil_r, World_eta. reflexivity.
  - cbn [save_preloaded saved_count]. unfold Photo_save. io.
    fold (preloaded_photo env eventId i img).
    destruct (photo_save_fails env i); cbn.
    { unfold with_Photos. rewrite app_nil_r, World_eta. reflexivity. }
    destruct (Photo_valid _); cbn.
    2:{ unfold with_Photos. rewrite app_nil_r, World_eta. reflexivity. }
    rewrite IH. unfold with_Photos; cbn. rewrite <- app_assoc. reflexivity.
Qed.

(** When every save is accepted all the images are saved. *)
Lemma saved_count_all env eventId i photos :
  (forall j, photo_save_fails env j = false) ->
  forallb (fun img => Photo_valid (preloaded_photo env eventId 0 img)) photos = true ->
  saved_count env eventId i photos = length photos.
Proof.
  intros Hok. revert i. induction photos as [|img rest IH]; intros i Hv.
  - reflexivity.
  - cbn [forallb] in Hv. apply andb_true_iff in Hv as [Hv1 Hv2].
    cbn [saved_count length]. rewrite Hok.
    change (Photo_valid (preloaded_photo env eventId i img))
      with (Photo_valid (preloaded_photo env eventId 0 img)).
    rewrite Hv1, IH; auto.
Qed.

Lemma Event_create_eq env us w :
  Event_create env (UserState.eventData us) w =
    match created_event env us w with
    | Some event => (Ok event, with_Events (Events w ++ [event]) w)
    | None => (Thrown, w)
    end.
Proof.
  unfold Event_create, created_event.
  destruct (event_save_fails env); [reflexivity|].
  destruct (Event_new _ _); [|reflexivity].
  destruct (existsb _ _); reflexivity.
Qed.

Lemma Event_new_data t data event :
  Event_new t data = Some event -> exists d, data = Some d.
Proof. destruct data as [d|]; [eauto | discriminate]. Qed.

Section Done.

Variables (env : Env) (userId : string) (w : World).

Lemma onDone_noop :
  (forall us, userStates w !! userId = Some us ->
              UserState.step us <> preloadedPhotos) ->
  onDone env userId w = (Ok tt, w).
Proof.
  intros H. unfold onDone. io.
  destruct (userStates w !! userId) as [us|]; [|reflexivity].
  specialize (H us eq_refl). destruct (UserState.step us); cbn; congruence.
Qed.

(** The whole of finalization: the Event is saved first, then the images
    one by one; the first rejected save ends the [try] block, what was
    saved before it stays, and (the replies reaching the user) the session
    is deleted in every case. *)
Lemma onDone_preloadedPhotos us :
  userStates w !! userId = Some us ->
  UserState.step us = preloadedPhotos ->
  onDone env userId w =
    match created_event env us w, UserState.eventData us with
    | Some event, Some d =>
        let photos := default [] (EventData.preloadedPhotos d) in
        let k := saved_count env (EventData.eventId d) 0 photos in
        (Ok tt,
         without_session userId
           (said (if (k =? length photos)%nat
                  then complete_message env (EventData.eventId d)
                  else "❌ Failed to create event")
              (with_Photos
                 (Photos w ++ preloaded_photos env (EventData.eventId d) 0 (take k photos))
                 (with_Events (Events w ++ [event]) w))))
    | _, _ =>
        (Ok tt, without_session userId (said "❌ Failed to create event" w))
    end.
Proof.
  intros H Hs. unfold onDone.
  unfold mbind at 1, IO_bind at 1, userStates_get. rewrite H, Hs. cbn [Step_eqb].
  unfold mbind at 1, IO_bind at 1, try_catch.
  unfold mbind at 1, IO_bind at 1. rewrite Event_create_eq.
  destruct (created_event env us w) as [event|] eqn:Hc; [|reflexivity].
  assert (exists d, UserState.eventData us = Some d) as [d Hd].
  { unfold created_event in Hc. destruct (event_save_fails env); [discriminate|].
    destruct (Event_new _ _) eqn:E; [|discriminate].
    exact (Event_new_data _ _ _ E). }
  rewrite Hd. io.
  destruct (EventData.preloadedPhotos d) as [photos|]; cbn.
  - rewrite save_preloaded_eq.
    destruct (saved_count env (EventData.eventId d) 0 photos =? length photos)%nat; reflexivity.
  - unfold with_Photos, with_Events, said, without_session, complete_message; cbn.
    rewrite app_nil_r. reflexivity.
Qed.

End Done.

(** ** What a handler may touch *)

Lemma onText_effect env userId text w :
  let w' := snd (onText env userId text w) in
  Photos w' = Photos w
  /\ (forall v, v <> userId -> userStates w' !! v = userStates w !! v)
  /\ (Events w' = Events w
      \/ exists i event,
           Events w !! i = Some event
           /\ Events w' = <[i := Event.set_status disabled event]> (Events w)).
Proof.
  cbn zeta.
  destruct (userStates w !! userId) as [us|] eqn:H.
  2:{ rewrite onText_no_session by assumption. cbn. auto. }
  destruct (UserState.step us) eqn:Hs.
  - rewrite (onText_welcomeText _ _ _ _ _ H Hs). unfold advance.
    destruct (100 <? String.length text)%nat, (UserState.eventData us); cbn;
      (split; [reflexivity | split; [|left; reflexivity]]);
      intros v Hv; rewrite ?lookup_insert_ne by congruence; reflexivity.
  - rewrite (onText_description _ _ _ _ _ H Hs). unfold advance.
    destruct (200 <? String.length text)%nat, (UserState.eventData us); cbn;
      (split; [reflexivity | split; [|left; reflexivity]]);
      intros v Hv; rewrite ?lookup_insert_ne by congruence; reflexivity.
  - rewrite (onText_falls_through _ _ _ _ _ H) by auto. cbn. auto.
  - rewrite (onText_serviceType _ _ _ _ _ H Hs). unfold advance.
    destruct (includes _ text), (UserState.eventData us); cbn;
      (split; [reflexivity | split; [|left; reflexivity]]);
      intros v Hv; rewrite ?lookup_insert_ne by congruence; reflexivity.
  - rewrite (onText_uploadLimit _ _ _ _ _ H Hs). unfold advance.
    destruct (limit_accepted text), (UserState.eventData us); cbn;
      (split; [reflexivity | split; [|left; reflexivity]]);
      intros v Hv; rewrite ?lookup_insert_ne by congruence; reflexivity.
  - rewrite (onText_falls_through _ _ _ _ _ H) by auto. cbn. auto.
  - rewrite (onText_eventIdForDisable _ _ _ _ _ H Hs).
    destruct (find_fails env); cbn; [auto|].
    destruct (list_find _ (Events w)) as [[i event]|] eqn:Hf; cbn; [|auto].
    destruct (event_save_fails env); cbn; [auto|].
    split; [reflexivity | split; [reflexivity|]].
    right. exists i, event. split; [|reflexivity].
    apply list_find_Some in Hf. tauto.
Qed.

Lemma onDone_effect env userId w :
  let w' := snd (onDone env userId w) in
  (forall v, v <> userId -> userStates w' !! v = userStates w !! v)
  /\ (Events w' = Events w \/ exists event, Events w' = (Events w ++ [event])%list).
Proof.
  cbn zeta.
  destruct (userStates w !! userId) as [us|] eqn:H.
  2:{ rewrite onDone_noop; [cbn; auto | intros us; congruence]. }
  destruct (Step_eqb (UserState.step us) preloadedPhotos) eqn:Hs.
  2:{ rewrite onDone_noop; [cbn; auto |].
      intros us' Hus'. assert (us' = us) as -> by congruence.
      intros E. rewrite E in Hs. discriminate. }
  assert (UserState.step us = preloadedPhotos) as Hstep
    by (destruct (UserState.step us); cbn in Hs; congruence).
  rewrite (onDone_preloadedPhotos _ _ _ _ H Hstep).
  destruct (created_event env us w) as [event|], (UserState.eventData us) as [d|]; cbn;
    (split; [intros v Hv; rewrite lookup_delete_ne by congruence; reflexivity |]);
    eauto.
Qed.

Lemma onStart_eq env userId w :
  onStart env userId w =
    (Ok tt,
     said ("🎉 Event Created! ID: " ++ generateEventId env ++ nl
           ++ "Enter welcome text (max 100 chars):")
       (with_session userId
          (UserState.mk welcomeText
             (Some (EventData.mk (generateEventId env) userId None None None None None None)))
          w)).
Proof. reflexivity. Qed.

Lemma onDisable_eq userId w :
  onDisable userId w =
    (Ok tt,
     said "Enter Event ID to disable uploads:"
       (with_session userId (UserState.mk eventIdForDisable None) w)).
Proof. reflexivity. Qed.

Lemma getEvent_world env eventId w : snd (getEvent env eventId w) = w.
Proof.
  unfold getEvent, Event_findOne, Photo_find_sorted. io.
  destruct (find_fails env); cbn; [reflexivity|].
  destruct (list_find _ (Events w)) as [[i event]|]; reflexivity.
Qed.

(** ** The upload route *)

(** The route, branch by branch. *)
Lemma postUpload_eq env req w :
  postUpload env req w =
    if find_fails env then (Ok upload_failed, w)
    else
      match list_find (fun e => Event.eventId e = Request.eventId req) (Events w) with
      | None => (Ok not_allowed, w)
      | Some (_, event) =>
          if Status_eqb (Event.status event) disabled
             || ServiceType_eqb (Event.serviceType event) viewalbum
          then (Ok not_allowed, w)
          else if count_fails env then (Ok upload_failed, w)
          else if Event.uploadLimit event <=? prior_uploads (Request.eventId req) (Request.ip req) w
          then (Ok limit_reached, w)
          else
            match Request.file req, cloudinary env with
            | Some _, Some img =>
                let photo := guest_photo env req img in
                if photo_save_fails env 0 then (Ok upload_failed, w)
                else if Photo_valid photo
                then (Ok (if unlink_fails env then upload_failed
                          else json 200 (UploadBody true photo)),
                      with_Photos (Photos w ++ [photo]) w)
                else (Ok upload_failed, w)
            | _, _ => (Ok upload_failed, w)
            end
      end.
Proof.
  unfold postUpload, Event_findOne, Photo_countDocuments, Photo_save,
    uploadToCloudinary, prior_uploads. io.
  destruct (find_fails env); cbn; [reflexivity|].
  destruct (list_find _ (Events w)) as [[i event]|]; cbn; [|reflexivity].
  destruct (Status_eqb _ _ || ServiceType_eqb _ _); cbn; [reflexivity|].
  destruct (count_fails env); cbn; [reflexivity|].
  destruct (Event.uploadLimit event <=? _); cbn; [reflexivity|].
  destruct (Request.file req); cbn; [|destruct (cloudinary env); reflexivity].
  destruct (cloudinary env) as [img|]; cbn; [|reflexivity].
  fold (guest_photo env req img).
  destruct (photo_save_fails env 0); cbn; [reflexivity|].
  destruct (Photo_valid _); cbn; [|reflexivity].
  destruct (unlink_fails env); reflexivity.
Qed.

Lemma postUpload_userStates env req w :
  userStates (snd (postUpload env req w)) = userStates w.
Proof.
  rewrite postUpload_eq. cbn zeta.
  repeat match goal with
    | |- context [match ?x with _ => _ end] => destruct x; try reflexivity
    end.
Qed.

Lemma postUpload_Events env req w :
  Events (snd (postUpload env req w)) = Events w.
Proof.
  rewrite postUpload_eq. cbn zeta.
  repeat match goal with
    | |- context [match ?x with _ => _ end] => destruct x; try reflexivity
    end.
Qed.

(** ** Requests and messages without a session *)

(** C10. A text message, a photo or the completion command from a user
    without a session changes nothing at all: no session appears, nothing
    is stored and nothing is sent.  Whatever the operation, a session can
    only appear for a user through that user's own start or disable
    command. *)
Theorem no_session_no_effect (env : Env) (w : World) :
  (forall userId, userStates w !! userId = None ->
     (forall text, exec env (OpText userId text) w = w)
     /\ exec env (OpPhoto userId) w = w
     /\ exec env (OpDone userId) w = w)
  /\ (forall op v, userStates w !! v = None ->
        is_Some (userStates (exec env op w) !! v) ->
        op = OpStart v \/ op = OpDisable v).
Proof.
  split.
  - intros userId H. cbn. repeat split.
    + intros text. rewrite onText_no_session by assumption. reflexivity.
    + rewrite onPhoto_no_session by assumption. reflexivity.
    + rewrite onDone_noop; [reflexivity | intros us; congruence].
  - intros op v H Hsome.
    assert (forall w', userStates w' !! v = userStates w !! v ->
                       ~ is_Some (userStates w' !! v)) as Hno.
    { intros w' E [x Hx]. congruence. }
    destruct op as [u|u text|u|u|u|eventId|req]; cbn [exec] in Hsome.
    + destruct (decide (u = v)) as [->|Hne]; [auto|].
      exfalso. apply (Hno _ (lookup_insert_ne _ _ _ _ Hne) Hsome).
    + exfalso. apply (Hno _) in Hsome; [assumption|].
      destruct (decide (u = v)) as [->|Hne].
      * rewrite onText_no_session by assumption. reflexivity.
      * apply onText_effect. congruence.
    + exfalso. apply (Hno _) in Hsome; [assumption|].
      destruct (decide (u = v)) as [->|Hne].
      * rewrite onPhoto_no_session by assumption. reflexivity.
      * apply onPhoto_frame. congruence.
    + exfalso. apply (Hno _) in Hsome; [assumption|].
      destruct (decide (u = v)) as [->|Hne].
      * rewrite onDone_noop; [reflexivity | intros us; congruence].
      * apply onDone_effect. congruence.
    + destruct (decide (u = v)) as [->|Hne]; [auto|].
      exfalso. apply (Hno _ (lookup_insert_ne _ _ _ _ Hne) Hsome).
    + exfalso. apply (Hno _) in Hsome; [assumption|].
      rewrite getEvent_world. reflexivity.
    + exfalso. apply (Hno _) in Hsome; [assumption|].
      rewrite postUpload_userStates. reflexivity.
Qed.

(** ** Admission control *)

Lemma Status_eqb_disabled st : Status_eqb st disabled = true <-> st <> active.
Proof. destruct st; cbn; split; congruence. Qed.

Lemma ServiceType_eqb_eq a b : ServiceType_eqb a b = true <-> a = b.
Proof. destruct a, b; cbn; split; congruence. Qed.

Lemma gate_open event :
  Event.status event = active -> Event.serviceType event <> viewalbum ->
  Status_eqb (Event.status event) disabled
  || ServiceType_eqb (Event.serviceType event) viewalbum = false.
Proof.
  intros Hs Hm. rewrite Hs. cbn.
  destruct (ServiceType_eqb _ _) eqn:E; [|reflexivity].
  apply ServiceType_eqb_eq in E. contradiction.
Qed.

(** C1, as the code has it. The checks of the upload route run in this
    order, the first failure deciding the answer, provided the lookups
    themselves succeed: an unknown [eventId], a status other than active
    and the service type viewalbum all draw the same answer, 400 with
    "Uploads not allowed"; only then is the quota looked at, and a count of
    prior guest photos that is not below [uploadLimit] draws 400 with
    "Upload limit reached".  No rejection writes anything. *)
Theorem upload_checks_in_order (env : Env) (req : Request.t) (w : World) :
  find_fails env = false ->
  let found := list_find (fun e => Event.eventId e = Request.eventId req) (Events w) in
  (found = None -> postUpload env req w = (Ok not_allowed, w))
  /\ (forall i event, found = Some (i, event) ->
        Event.status event <> active ->
        postUpload env req w = (Ok not_allowed, w))
  /\ (forall i event, found = Some (i, event) ->
        Event.status event = active -> Event.serviceType event = viewalbum ->
        postUpload env req w = (Ok not_allowed, w))
  /\ (forall i event, found = Some (i, event) ->
        Event.status event = active -> Event.serviceType event <> viewalbum ->
        count_fails env = false ->
        ~ prior_uploads (Request.eventId req) (Request.ip req) w < Event.uploadLimit event ->
        postUpload env req w = (Ok limit_reached, w)).
Proof.
  intros Hfind found. subst found. rewrite postUpload_eq, Hfind.
  repeat split.
  - intros ->. reflexivity.
  - intros i event -> Hs. apply Status_eqb_disabled in Hs. rewrite Hs. reflexivity.
  - intros i event -> Hs Hm. rewrite Hs, Hm. reflexivity.
  - intros i event -> Hs Hm Hcount Hq.
    rewrite (gate_open _ Hs Hm), Hcount.
    destruct (Z.leb_spec (Event.uploadLimit event)
                (prior_uploads (Request.eventId req) (Request.ip req) w)); [reflexivity|lia].
Qed.

(** C1 fails where it promises [NotFound]: a submission for an event that
    does not exist is answered like one for a disabled event. *)
Lemma unknown_event_is_not_NotFound :
  list_find (fun e => Event.eventId e = Request.eventId sample_request)
    (Events (world_of [])) = None
  /\ rejection (postUpload quiet sample_request (world_of [])) = Some UploadsDisabled
  /\ rejection (postUpload quiet sample_request (world_of [])) <> Some NotFound
  /\ fst (postUpload quiet sample_request (world_of []))
     = fst (postUpload quiet sample_request (world_of [sample_event 5 both disabled])).
Proof. repeat split; try reflexivity. vm_compute. discriminate. Qed.

(** ** The quota *)

Lemma guest_photo_counts env req img :
  guest_upload_of (Request.eventId req) (Request.ip req) (guest_photo env req img) = true.
Proof.
  unfold guest_upload_of, guest_photo; cbn. rewrite !String.eqb_refl. reflexivity.
Qed.

Lemma prior_uploads_after env req img eventId ip w :
  Request.eventId req = eventId -> Request.ip req = ip ->
  prior_uploads eventId ip (with_Photos (Photos w ++ [guest_photo env req img]) w)
  = prior_uploads eventId ip w + 1.
Proof.
  intros <- <-. unfold prior_uploads, with_Photos; cbn [Photos].
  rewrite filter_app, length_app.
  rewrite filter_cons_True by apply guest_photo_counts.
  rewrite filter_nil. cbn [length]. lia.
Qed.

(** One submission that passes the gate and meets no failure. *)
Lemma postUpload_quota env req img w i event :
  list_find (fun e => Event.eventId e = Request.eventId req) (Events w) = Some (i, event) ->
  Event.status event = active -> Event.serviceType event <> viewalbum ->
  storage_ok env req img ->
  postUpload env req w =
    if prior_uploads (Request.eventId req) (Request.ip req) w <? Event.uploadLimit event
    then (Ok (json 200 (UploadBody true (guest_photo env req img))),
          with_Photos (Photos w ++ [guest_photo env req img]) w)
    else (Ok limit_reached, w).
Proof.
  intros Hf Hs Hm (Hfind & Hcount & [path Hfile] & Hcloud & Hvalid & Hsave & Hunlink).
  rewrite postUpload_eq, Hfind, Hf, (gate_open _ Hs Hm), Hcount.
  rewrite Z.leb_antisym.
  destruct (_ <? Event.uploadLimit event); cbn [negb]; [|reflexivity].
  rewrite Hfile, Hcloud. cbn zeta. rewrite Hsave, Hvalid, Hunlink. reflexivity.
Qed.

(** C2, as the code has it. For an Event that is active and whose service
    type is not viewalbum, a submission that meets no storage failure is
    admitted if and only if the uploader's count of prior guest Photos for
    the event is strictly below [uploadLimit]: below the limit the Photo is
    stored and returned, otherwise the answer is "Upload limit reached" and
    nothing is stored.  With [uploadLimit] 2 and no prior upload, three
    submissions in a row from the same uploader, whatever the images, are
    admitted, admitted and refused for the quota. *)
Theorem quota_admission (w : World) (eventId ip : string) (i : nat) (event : Event.t) :
  list_find (fun e => Event.eventId e = eventId) (Events w) = Some (i, event) ->
  Event.status event = active ->
  Event.serviceType event <> viewalbum ->
  (forall env req img,
     Request.eventId req = eventId -> Request.ip req = ip ->
     storage_ok env req img ->
     (admitted (postUpload env req w) = true
      <-> prior_uploads eventId ip w < Event.uploadLimit event)
     /\ (prior_uploads eventId ip w < Event.uploadLimit event ->
         postUpload env req w =
           (Ok (json 200 (UploadBody true (guest_photo env req img))),
            with_Photos (Photos w ++ [guest_photo env req img]) w))
     /\ (~ prior_uploads eventId ip w < Event.uploadLimit event ->
         postUpload env req w = (Ok limit_reached, w)))
  /\ (Event.uploadLimit event = 2 -> prior_uploads eventId ip w = 0 ->
      forall env1 req1 img1 env2 req2 img2 env3 req3 img3,
        Request.eventId req1 = eventId -> Request.ip req1 = ip ->
        Request.eventId req2 = eventId -> Request.ip req2 = ip ->
        Request.eventId req3 = eventId -> Request.ip req3 = ip ->
        storage_ok env1 req1 img1 -> storage_ok env2 req2 img2 ->
        storage_ok env3 req3 img3 ->
        let r1 := postUpload env1 req1 w in
        let r2 := postUpload env2 req2 (snd r1) in
        let r3 := postUpload env3 req3 (snd r2) in
        fst r1 = Ok (json 200 (UploadBody true (guest_photo env1 req1 img1)))
        /\ fst r2 = Ok (json 200 (UploadBody true (guest_photo env2 req2 img2)))
        /\ fst r3 = Ok limit_reached
        /\ rejection r3 = Some QuotaExceeded).
Proof.
  intros Hf Hs Hm. split.
  - intros env req img He Hi Hok. subst eventId ip.
    rewrite (postUpload_quota _ _ _ _ _ _ Hf Hs Hm Hok).
    destruct (Z.ltb_spec (prior_uploads (Request.eventId req) (Request.ip req) w)
                (Event.uploadLimit event)) as [Hlt|Hge].
    + repeat split; auto; intros; lia.
    + repeat split; try (intros; lia); try reflexivity.
      cbn. discriminate.
  - intros Hlimit Hprior env1 req1 img1 env2 req2 img2 env3 req3 img3
      He1 Hi1 He2 Hi2 He3 Hi3 Hok1 Hok2 Hok3 r1 r2 r3.
    assert (r1 = (Ok (json 200 (UploadBody true (guest_photo env1 req1 img1))),
                  with_Photos (Photos w ++ [guest_photo env1 req1 img1]) w)) as E1.
    { subst r1. rewrite <- He1 in Hf.
      rewrite (postUpload_quota _ _ _ _ _ _ Hf Hs Hm Hok1), He1, Hi1, Hprior, Hlimit.
      reflexivity. }
    assert (r2 = (Ok (json 200 (UploadBody true (guest_photo env2 req2 img2))),
                  with_Photos (Photos (snd r1) ++ [guest_photo env2 req2 img2]) (snd r1))) as E2.
    { subst r2. rewrite E1. cbn [snd]. rewrite <- He2 in Hf.
      rewrite (postUpload_quota env2 req2 img2 _ i event); try assumption.
      rewrite He2, Hi2, (prior_uploads_after _ _ _ _ _ _ He1 Hi1), Hprior, Hlimit.
      reflexivity. }
    assert (r3 = (Ok limit_reached, snd r2)) as E3.
    { subst r3. rewrite E2, E1. cbn [snd]. rewrite <- He3 in Hf.
      rewrite (postUpload_quota env3 req3 img3 _ i event); try assumption.
      rewrite He3, Hi3.
      rewrite (prior_uploads_after env2 req2 img2 eventId ip
                 (with_Photos (Photos w ++ [guest_photo env1 req1 img1]) w) He2 Hi2).
      rewrite (prior_uploads_after _ _ _ _ _ _ He1 Hi1), Hprior, Hlimit.
      reflexivity. }
    rewrite E3, E2, E1. repeat split.
Qed.

(** C2 fails as stated for every Event: a disabled event refuses an
    uploader who is well within the quota. *)
Lemma disabled_event_refuses_within_quota :
  storage_ok quiet sample_request sample_image
  /\ prior_uploads (Request.eventId sample_request) (Request.ip sample_request)
       disabled_world
     < Event.uploadLimit (sample_event 5 both disabled)
  /\ admitted (postUpload quiet sample_request disabled_world) = false
  /\ ~ (admitted (postUpload quiet sample_request disabled_world) = true
        <-> prior_uploads (Request.eventId sample_request) (Request.ip sample_request)
              disabled_world
            < Event.uploadLimit (sample_event 5 both disabled)).
Proof.
  assert (admitted (postUpload quiet sample_request disabled_world) = false) as Hrej
    by reflexivity.
  repeat split; try reflexivity.
  - eexists; reflexivity.
  - rewrite Hrej. intros [_ H]. discriminate H. reflexivity.
Qed.

(** ** The query surface *)

Lemma uploadEnabled_iff event :
  uploadEnabled event = true
  <-> Event.status event = active /\ Event.serviceType event <> viewalbum.
Proof.
  unfold uploadEnabled. destruct (Event.status event), (Event.serviceType event);
    cbn; split; try discriminate; try (intros [? ?]; congruence);
    intros _; split; congruence.
Qed.

(** C8. For an existing Event the query route answers with a flag
    [uploadEnabled] that is true exactly when the Event's status is active
    and its service type is not viewalbum, and false in every other
    combination. *)
Theorem uploadEnabled_flag (env : Env) (eventId : string) (w : World)
    (i : nat) (event : Event.t) :
  find_fails env = false ->
  list_find (fun e => Event.eventId e = eventId) (Events w) = Some (i, event) ->
  exists preloadedPhotos guestPhotos flag,
    getEvent env eventId w
      = (Ok (json 200 (EventBody event preloadedPhotos guestPhotos flag)), w)
    /\ (flag = true
        <-> Event.status event = active /\ Event.serviceType event <> viewalbum)
    /\ (flag = false
        <-> Event.status event <> active \/ Event.serviceType event = viewalbum).
Proof.
  intros Hfind Hf. unfold getEvent, Event_findOne, Photo_find_sorted. io.
  rewrite Hfind, Hf. cbn.
  eexists _, _, _. split; [reflexivity|]. split; [apply uploadEnabled_iff|].
  unfold uploadEnabled. destruct (Event.status event), (Event.serviceType event);
    cbn; split; try discriminate; try tauto; try (intros [?|?]; congruence);
    intros _; (right; reflexivity) || (left; discriminate).
Qed.

(** ** The completion message *)

(** A text changes the collections only in the disable flow. *)
Lemma onText_store env userId text w :
  (forall us, userStates w !! userId = Some us ->
              UserState.step us <> eventIdForDisable) ->
  Events (snd (onText env userId text w)) = Events w
  /\ Photos (snd (onText env userId text w)) = Photos w.
Proof.
  intros Hnd.
  destruct (userStates w !! userId) as [us|] eqn:H.
  2:{ rewrite onText_no_session by assumption. auto. }
  specialize (Hnd us eq_refl).
  destruct (UserState.step us) eqn:Hs; try congruence.
  - rewrite (onText_welcomeText _ _ _ _ _ H Hs). unfold advance.
    destruct (100 <? String.length text)%nat, (UserState.eventData us); cbn; auto.
  - rewrite (onText_description _ _ _ _ _ H Hs). unfold advance.
    destruct (200 <? String.length text)%nat, (UserState.eventData us); cbn; auto.
  - rewrite (onText_falls_through _ _ _ _ _ H) by auto. auto.
  - rewrite (onText_serviceType _ _ _ _ _ H Hs). unfold advance.
    destruct (includes _ text), (UserState.eventData us); cbn; auto.
  - rewrite (onText_uploadLimit _ _ _ _ _ H Hs). unfold advance.
    destruct (limit_accepted text), (UserState.eventData us); cbn; auto.
  - rewrite (onText_falls_through _ _ _ _ _ H) by auto. auto.
Qed.

(** The completion command is handed to the text handler. *)
Lemma receive_done env userId w :
  receive env (UpdText userId "/done") w = snd (onText env userId "/done" w).
Proof. reflexivity. Qed.

(** C3, where the program departs from it. The completion command reaches
    the bot as the text [/done], and the text handler takes it: the handler
    of the command is registered after it and is never run.  In step
    [preloadedPhotos] the command therefore changes nothing at all: no
    Event and no Photo is persisted, nothing is answered and the session
    stays as it was.  Outside the disable flow it never writes to the
    collections, and it is no no-op in the two first steps: in
    [welcomeText] and [description] it is stored in the draft as the
    welcome text or the description, and the session moves on. *)
Theorem completion_message_does_not_finalize (env : Env) (userId : string)
    (w : World) (us : UserState.t) :
  userStates w !! userId = Some us ->
  let w' := receive env (UpdText userId "/done") w in
  route (UpdText userId "/done") = OpText userId "/done"
  /\ (UserState.step us = preloadedPhotos -> w' = w)
  /\ (UserState.step us <> eventIdForDisable ->
      Events w' = Events w /\ Photos w' = Photos w)
  /\ (forall d,
        UserState.step us = welcomeText -> UserState.eventData us = Some d ->
        exists d',
          userStates w' !! userId = Some (UserState.mk description (Some d'))
          /\ EventData.welcomeText d' = Some "/done")
  /\ (forall d,
        UserState.step us = description -> UserState.eventData us = Some d ->
        exists d',
          userStates w' !! userId = Some (UserState.mk backgroundImage (Some d'))
          /\ EventData.description d' = Some "/done").
Proof.
  intros H w'. subst w'. rewrite receive_done.
  split; [reflexivity|]. split; [|split; [|split]].
  - intros Hs. rewrite (onText_falls_through _ _ _ _ _ H) by auto. reflexivity.
  - intros Hnd. apply onText_store. intros us0 Hus0.
    assert (us0 = us) as -> by congruence. exact Hnd.
  - intros d Hs Hd. rewrite (onText_welcomeText _ _ _ _ _ H Hs).
    replace (100 <? String.length "/done")%nat with false by reflexivity.
    unfold advance. rewrite Hd. cbn. rewrite lookup_insert_eq.
    eexists. split; reflexivity.
  - intros d Hs Hd. rewrite (onText_description _ _ _ _ _ H Hs).
    replace (200 <? String.length "/done")%nat with false by reflexivity.
    unfold advance. rewrite Hd. cbn. rewrite lookup_insert_eq.
    eexists. split; reflexivity.
Qed.


(** ** Events after their creation *)

Lemma same_but_status_fields e e' :
  same_but_status e e' <->
  Event.eventId e' = Event.eventId e
  /\ Event.welcomeText e' = Event.welcomeText e
  /\ Event.description e' = Event.description e
  /\ Event.backgroundImage e' = Event.backgroundImage e
  /\ Event.serviceType e' = Event.serviceType e
  /\ Event.uploadLimit e' = Event.uploadLimit e
  /\ Event.preloadedPhotos e' = Event.preloadedPhotos e
  /\ Event.createdBy e' = Event.createdBy e
  /\ Event.createdAt e' = Event.createdAt e.
Proof.
  unfold same_but_status, Event.set_status. destruct e, e'; cbn. split.
  - intros [= -> -> -> -> -> -> -> -> ->]. repeat split.
  - intros (-> & -> & -> & -> & -> & -> & -> & -> & ->). reflexivity.
Qed.

Lemma same_but_status_refl e : same_but_status e e.
Proof. destruct e; reflexivity. Qed.

Lemma same_but_status_trans e1 e2 e3 :
  same_but_status e1 e2 -> same_but_status e2 e3 -> same_but_status e1 e3.
Proof.
  rewrite !same_but_status_fields.
  intros (?&?&?&?&?&?&?&?&?) (?&?&?&?&?&?&?&?&?). repeat split; congruence.
Qed.

Lemma same_but_status_set st e : same_but_status e (Event.set_status st e).
Proof. destruct e; reflexivity. Qed.

Lemma events_kept_refl l : events_kept l l.
Proof.
  exists l, []. split; [symmetry; apply app_nil_r|].
  apply Forall_Forall2_diag, Forall_true, same_but_status_refl.
Qed.

Lemma events_kept_app l e : events_kept l (l ++ [e])%list.
Proof.
  exists l, [e]. split; [reflexivity|].
  apply Forall_Forall2_diag, Forall_true, same_but_status_refl.
Qed.

Lemma events_kept_status l i e st :
  l !! i = Some e -> events_kept l (<[i := Event.set_status st e]> l).
Proof.
  intros H. exists (<[i := Event.set_status st e]> l), [].
  split; [symmetry; apply app_nil_r|].
  rewrite <- (list_insert_id l i e H) at 1.
  apply Forall2_insert; [|apply same_but_status_set].
  apply Forall_Forall2_diag, Forall_true, same_but_status_refl.
Qed.

Lemma events_kept_trans l1 l2 l3 :
  events_kept l1 l2 -> events_kept l2 l3 -> events_kept l1 l3.
Proof.
  intros (k1 & c1 & -> & H1) (k2 & c2 & -> & H2).
  apply Forall2_app_inv_l in H2 as (k2a & k2b & Ha & Hb & ->).
  exists k2a, (k2b ++ c2)%list. split; [symmetry; apply app_assoc|].
  exact (Forall2_trans _ _ _ _ _ _ same_but_status_trans H1 Ha).
Qed.

Lemma exec_events_kept env op w : events_kept (Events w) (Events (exec env op w)).
Proof.
  destruct op as [u|u text|u|u|u|eventId|req]; cbn [exec].
  - apply events_kept_refl.
  - destruct (onText_effect env u text w) as (_ & _ & [-> | (i & e & Hi & ->)]).
    + apply events_kept_refl.
    + apply events_kept_status, Hi.
  - destruct (onPhoto_frame env u w) as (-> & _). apply events_kept_refl.
  - destruct (onDone_effect env u w) as (_ & [-> | [e ->]]).
    + apply events_kept_refl.
    + apply events_kept_app.
  - apply events_kept_refl.
  - rewrite getEvent_world. apply events_kept_refl.
  - rewrite postUpload_Events. apply events_kept_refl.
Qed.

Lemma run_events_kept ops w : events_kept (Events w) (Events (run ops w)).
Proof.
  revert w. induction ops as [|[env op] ops IH]; intros w; cbn.
  - apply events_kept_refl.
  - eapply events_kept_trans; [apply exec_events_kept | apply IH].
Qed.

(** C9. Along any run of operations every Event that is in the store stays
    in it with all its fields but [status] unchanged; the query route and
    the upload route do not write to the collection of Events at all; and a
    text in step [eventIdForDisable] either leaves the collection as it is
    or replaces the first Event with that [eventId] by the same Event with
    status disabled. *)
Theorem events_immutable_but_status (ops : list (Env * Operation)) (w : World) :
  (forall i event,
     Events w !! i = Some event ->
     exists event',
       Events (run ops w) !! i = Some event'
       /\ Event.eventId event' = Event.eventId event
       /\ Event.welcomeText event' = Event.welcomeText event
       /\ Event.description event' = Event.description event
       /\ Event.backgroundImage event' = Event.backgroundImage event
       /\ Event.serviceType event' = Event.serviceType event
       /\ Event.uploadLimit event' = Event.uploadLimit event
       /\ Event.preloadedPhotos event' = Event.preloadedPhotos event
       /\ Event.createdBy event' = Event.createdBy event
       /\ Event.createdAt event' = Event.createdAt event)
  /\ (forall env eventId, Events (exec env (OpGetEvent eventId) w) = Events w)
  /\ (forall env req, Events (exec env (OpUpload req) w) = Events w)
  /\ (forall env userId text us,
        userStates w !! userId = Some us ->
        UserState.step us = eventIdForDisable ->
        Events (exec env (OpText userId text) w) = Events w
        \/ exists i event,
             list_find (fun e => Event.eventId e = text) (Events w) = Some (i, event)
             /\ Events (exec env (OpText userId text) w)
                = <[i := Event.set_status disabled event]> (Events w)).
Proof.
  repeat split.
  - intros i event Hi.
    destruct (run_events_kept ops w) as (kept & created & -> & HF).
    destruct (Forall2_lookup_l _ _ _ _ _ HF Hi) as (event' & Hk & Hsame).
    exists event'. split; [apply lookup_app_l_Some, Hk|].
    apply same_but_status_fields, Hsame.
  - intros env eventId. cbn. rewrite getEvent_world. reflexivity.
  - intros env req. cbn. apply postUpload_Events.
  - intros env userId text us H Hs. cbn [exec].
    rewrite (onText_eventIdForDisable _ _ _ _ _ H Hs).
    destruct (find_fails env); cbn; [auto|].
    destruct (list_find _ (Events w)) as [[i event]|]; cbn; [|auto].
    destruct (event_save_fails env); cbn; [auto|]. right. eauto.
Qed.

(** ** Sessions in the worlds the system reaches *)

Lemma onText_session env userId text w us' :
  userStates (snd (onText env userId text w)) !! userId = Some us' ->
  userStates w !! userId = Some us' \/ is_Some (UserState.eventData us').
Proof.
  destruct (userStates w !! userId) as [us|] eqn:H.
  2:{ rewrite onText_no_session by assumption. cbn. intros E. congruence. }
  assert (forall f next prompt,
            userStates (snd (advance userId w us f next prompt)) !! userId = Some us' ->
            Some us = Some us' \/ is_Some (UserState.eventData us')) as Hadv.
  { intros f next prompt. unfold advance.
    destruct (UserState.eventData us) as [d|]; cbn.
    - rewrite lookup_insert_eq. intros [= <-]. right. cbn. eauto.
    - rewrite H. auto. }
  destruct (UserState.step us) eqn:Hs.
  - rewrite (onText_welcomeText _ _ _ _ _ H Hs).
    destruct (100 <? String.length text)%nat; [cbn; rewrite H; auto | apply Hadv].
  - rewrite (onText_description _ _ _ _ _ H Hs).
    destruct (200 <? String.length text)%nat; [cbn; rewrite H; auto | apply Hadv].
  - rewrite (onText_falls_through _ _ _ _ _ H) by auto. cbn. rewrite H. auto.
  - rewrite (onText_serviceType _ _ _ _ _ H Hs).
    destruct (includes _ text); [apply Hadv | cbn; rewrite H; auto].
  - rewrite (onText_uploadLimit _ _ _ _ _ H Hs).
    destruct (limit_accepted text); [apply Hadv | cbn; rewrite H; auto].
  - rewrite (onText_falls_through _ _ _ _ _ H) by auto. cbn. rewrite H. auto.
  - rewrite (onText_eventIdForDisable _ _ _ _ _ H Hs).
    destruct (find_fails env); [cbn; rewrite H; auto|].
    destruct (list_find _ (Events w)) as [[i event]|]; [|cbn; rewrite H; auto].
    destruct (event_save_fails env); cbn; rewrite H; auto.
Qed.

Lemma onPhoto_session env userId w us' :
  userStates (snd (onPhoto env userId w)) !! userId = Some us' ->
  userStates w !! userId = Some us' \/ is_Some (UserState.eventData us').
Proof.
  unfold onPhoto, uploadToCloudinary. io.
  destruct (userStates w !! userId) as [us|] eqn:H; cbn; [|rewrite H; auto].
  destruct (download_fails env); cbn; [rewrite H; auto|].
  destruct us as [step [d|]]; cbn;
    destruct step, (cloudinary env), (unlink_fails env); io;
    try destruct (EventData.preloadedPhotos d); io;
    rewrite ?lookup_insert_eq, ?H; auto;
    intros [= <-]; right; cbn; eauto.
Qed.

Lemma onDone_session env userId w us' :
  userStates (snd (onDone env userId w)) !! userId = Some us' ->
  userStates w !! userId = Some us'.
Proof.
  destruct (userStates w !! userId) as [us|] eqn:H.
  2:{ rewrite onDone_noop; [cbn; congruence | intros us; congruence]. }
  destruct (Step_eqb (UserState.step us) preloadedPhotos) eqn:Hs.
  2:{ rewrite onDone_noop; [cbn; congruence|].
      intros us0 Hus0. assert (us0 = us) as -> by congruence.
      intros E. rewrite E in Hs. discriminate. }
  assert (UserState.step us = preloadedPhotos) as Hstep
    by (destruct (UserState.step us); cbn in Hs; congruence).
  rewrite (onDone_preloadedPhotos _ _ _ _ H Hstep).
  destruct (created_event env us w), (UserState.eventData us); cbn;
    rewrite lookup_delete_eq; discriminate.
Qed.

(** The handlers keep the draft wherever they need it: a session in one of
    the steps of the creation chain always carries its draft. *)
Lemma exec_sessions_ok env op w : sessions_ok w -> sessions_ok (exec env op w).
Proof.
  intros Hok v us' Hv.
  assert (forall u, (v <> u -> userStates (exec env op w) !! v = userStates w !! v) ->
                    (userStates (exec env op w) !! u = Some us' ->
                     userStates w !! u = Some us' \/ has_draft us') ->
                    has_draft us') as Hcase.
  { intros u Hother Hown. destruct (decide (v = u)) as [->|Hne].
    - destruct (Hown Hv) as [Hold|?]; [exact (Hok _ _ Hold) | assumption].
    - rewrite (Hother Hne) in Hv. exact (Hok _ _ Hv). }
  destruct op as [u|u text|u|u|u|eventId|req]; cbn [exec] in *.
  - apply (Hcase u).
    + intros Hne. rewrite onStart_eq. cbn. apply lookup_insert_ne. congruence.
    + rewrite onStart_eq. cbn. rewrite lookup_insert_eq. intros [= <-].
      right. right. cbn. eauto.
  - apply (Hcase u).
    + intros Hne. apply onText_effect. assumption.
    + intros E. destruct (onText_session _ _ _ _ _ E); [auto | right; right; assumption].
  - apply (Hcase u).
    + intros Hne. apply onPhoto_frame. assumption.
    + intros E. destruct (onPhoto_session _ _ _ _ E); [auto | right; right; assumption].
  - apply (Hcase u).
    + intros Hne. apply onDone_effect. assumption.
    + intros E. left. exact (onDone_session _ _ _ _ E).
  - apply (Hcase u).
    + intros Hne. rewrite onDisable_eq. cbn. apply lookup_insert_ne. congruence.
    + rewrite onDisable_eq. cbn. rewrite lookup_insert_eq. intros [= <-].
      right. left. reflexivity.
  - rewrite getEvent_world in Hv. exact (Hok _ _ Hv).
  - rewrite postUpload_userStates in Hv. exact (Hok _ _ Hv).
Qed.

Lemma run_sessions_ok ops w : sessions_ok w -> sessions_ok (run ops w).
Proof.
  revert w. induction ops as [|[env op] ops IH]; intros w Hok; cbn; [assumption|].
  apply IH, exec_sessions_ok, Hok.
Qed.

Lemma reachable_sessions_ok ops : sessions_ok (run ops empty_world).
Proof.
  apply run_sessions_ok. intros u us H. cbn in H. rewrite lookup_empty in H. discriminate.
Qed.

(** [parseInt] reads a prefix: what follows the digits is ignored. *)
Example parseInt_samples :
  parseInt "20" = Some 20 /\ parseInt "0" = Some 0 /\ parseInt "21" = Some 21
  /\ parseInt "abc" = None /\ parseInt "" = None /\ parseInt "-3" = Some (-3)
  /\ parseInt " 7" = Some 7 /\ parseInt "5abc" = Some 5 /\ parseInt "3.9" = Some 3
  /\ parseInt "0x10" = Some 16.
Proof. repeat split; reflexivity. Qed.

(** ** The statements at work on sample data *)

(** The chain ends in step [preloadedPhotos] with a fully collected draft. *)
Example creation_chain_collects :
  userStates (run sample_chain empty_world) !! "42"
  = Some (UserState.mk preloadedPhotos (Some sample_draft))
  /\ fully_collected sample_draft = true.
Proof. split; reflexivity. Qed.

Lemma upload_checks_in_order_witness :
  find_fails quiet = false
  /\ postUpload quiet sample_request (world_of []) = (Ok not_allowed, world_of []).
Proof.
  split; [reflexivity|].
  apply (upload_checks_in_order quiet sample_request (world_of []) eq_refl).
  reflexivity.
Defined.

Lemma quota_admission_witness :
  fst (postUpload quiet sample_request
         (snd (postUpload quiet sample_request
                 (snd (postUpload quiet sample_request
                         (world_of [sample_event 2 both active]))))))
  = Ok limit_reached.
Proof.
  assert (storage_ok quiet sample_request sample_image) as Hok.
  { repeat split; try reflexivity. eexists; reflexivity. }
  apply (proj2 (quota_admission (world_of [sample_event 2 both active])
                  "EVT_K3X9A7PQ2" "203.0.113.7" 0 (sample_event 2 both active)
                  eq_refl eq_refl ltac:(discriminate))
           eq_refl eq_refl
           quiet sample_request sample_image quiet sample_request sample_image
           quiet sample_request sample_image
           eq_refl eq_refl eq_refl eq_refl eq_refl eq_refl Hok Hok Hok).
Defined.

Lemma completion_message_does_not_finalize_witness :
  receive quiet (UpdText "42" "/done") ready_world = ready_world.
Proof.
  apply (proj1 (proj2 (completion_message_does_not_finalize quiet "42" ready_world
                         (UserState.mk preloadedPhotos (Some sample_draft)) eq_refl))
           eq_refl).
Defined.


Lemma text_length_boundaries_witness :
  onText quiet "42" (text_of_length 100)
    (session_world (UserState.mk welcomeText (Some fresh_draft)))
  = (Ok tt,
     said "✅ Now enter description (max 200 chars):"
       (with_session "42"
          (UserState.mk description
             (Some (EventData.set_welcomeText (text_of_length 100) fresh_draft)))
          (session_world (UserState.mk welcomeText (Some fresh_draft))))).
Proof.
  apply (proj1 (proj1 (text_length_boundaries quiet "42"
                         (session_world (UserState.mk welcomeText (Some fresh_draft)))
                         fresh_draft (text_of_length 100))
                  eq_refl)
           eq_refl).
Defined.

Lemma uploadLimit_validation_witness :
  onText quiet "42" "21" (session_world (UserState.mk uploadLimit (Some fresh_draft)))
  = (Ok tt,
     said "❌ Enter number 1-20:"
       (session_world (UserState.mk uploadLimit (Some fresh_draft)))).
Proof.
  apply (proj1 (uploadLimit_validation quiet "42"
                  (session_world (UserState.mk uploadLimit (Some fresh_draft)))
                  fresh_draft "21" eq_refl)).
  intros n Hn. vm_compute in Hn. injection Hn as <-. right. reflexivity.
Defined.

Lemma uploadEnabled_flag_witness :
  exists preloadedPhotos guestPhotos flag,
    getEvent quiet "EVT_K3X9A7PQ2" (world_of [sample_event 5 viewalbum active])
      = (Ok (json 200 (EventBody (sample_event 5 viewalbum active)
                         preloadedPhotos guestPhotos flag)),
         world_of [sample_event 5 viewalbum active])
    /\ flag = false.
Proof.
  destruct (uploadEnabled_flag quiet "EVT_K3X9A7PQ2"
              (world_of [sample_event 5 viewalbum active]) 0
              (sample_event 5 viewalbum active) eq_refl eq_refl)
    as (pre & gst & flag & Heq & _ & Hfalse).
  exists pre, gst, flag. split; [exact Heq|].
  apply Hfalse. right. reflexivity.
Defined.

Lemma events_immutable_but_status_witness :
  exists event',
    Events (run [(quiet, OpDisable "7"); (quiet, OpText "7" "EVT_K3X9A7PQ2")]
              (world_of [sample_event 5 both active])) !! 0%nat = Some event'
    /\ Event.uploadLimit event' = 5.
Proof.
  destruct (proj1 (events_immutable_but_status
                     [(quiet, OpDisable "7"); (quiet, OpText "7" "EVT_K3X9A7PQ2")]
                     (world_of [sample_event 5 both active]))
              0%nat (sample_event 5 both active) eq_refl)
    as (event' & Hlook & _ & _ & _ & _ & _ & Hlimit & _).
  exists event'. split; [exact Hlook | exact Hlimit].
Defined.

Lemma no_session_no_effect_witness :
  exec quiet (OpDone "42") empty_world = empty_world.
Proof.
  apply (proj1 (no_session_no_effect quiet empty_world) "42" eq_refl).
Defined.

(** * Further properties of the handlers *)

(** ** The photo handler in the two steps that wait for an image *)

Section PhotoAccepted.

Variables (env : Env) (userId : string) (w : World).

Lemma onPhoto_backgroundImage us :
  userStates w !! userId = Some us ->
  UserState.step us = backgroundImage ->
  onPhoto env userId w =
    if download_fails env then (Ok tt, said photo_failed w)
    else match cloudinary env, UserState.eventData us with
         | Some img, Some d =>
             let w1 :=
               said "✅ Background set! Choose: /both, /viewalbum, or /uploadpics"
                 (with_session userId
                    (UserState.mk serviceType (Some (EventData.set_backgroundImage img d))) w) in
             (Ok tt, if unlink_fails env then said photo_failed w1 else w1)
         | _, _ => (Ok tt, said photo_failed w)
         end.
Proof.
  intros H Hs. unfold onPhoto, uploadToCloudinary. io. rewrite H. cbn.
  destruct (download_fails env); cbn; [reflexivity|].
  destruct us as [step [d|]]; cbn in Hs; subst step; cbn;
    destruct (cloudinary env) as [img|]; io; try reflexivity.
  destruct (unlink_fails env); cbn; unfold said, with_session; cbn;
    rewrite ?insert_insert_eq; reflexivity.
Qed.

Lemma onPhoto_preloadedPhotos us :
  userStates w !! userId = Some us ->
  UserState.step us = preloadedPhotos ->
  onPhoto env userId w =
    if download_fails env then (Ok tt, said photo_failed w)
    else match UserState.eventData us with
         | None => (Ok tt, said photo_failed w)
         | Some d =>
             match cloudinary env with
             | None =>
                 (Ok tt,
                  said photo_failed
                    match EventData.preloadedPhotos d with
                    | None =>
                        with_session userId
                          (UserState.mk preloadedPhotos
                             (Some (EventData.set_preloadedPhotos [] d))) w
                    | Some _ => w
                    end)
             | Some img =>
                 let w1 :=
                   said "✅ Photo added! Send more or /done"
                     (with_session userId
                        (UserState.mk preloadedPhotos (Some (add_image d img))) w) in
                 (Ok tt, if unlink_fails env then said photo_failed w1 else w1)
             end
         end.
Proof.
  intros H Hs. unfold onPhoto, uploadToCloudinary, add_image, collected. io.
  rewrite H. cbn.
  destruct (download_fails env); cbn; [reflexivity|].
  destruct us as [step [d|]]; cbn in Hs; subst step; cbn; [|reflexivity].
  destruct d as [eid by_ wt ds bg st ul [pre|]]; cbn;
    destruct (cloudinary env) as [img|]; io; try reflexivity;
    destruct (unlink_fails env); cbn; unfold said, with_session; cbn;
    rewrite ?insert_insert_eq; reflexivity.
Qed.

End PhotoAccepted.

Lemma collected_add_image d img : collected (add_image d img) = (collected d ++ [img])%list.
Proof. reflexivity. Qed.

Lemma collected_foldl_add_image imgs d :
  collected (foldl add_image d imgs) = (collected d ++ imgs)%list.
Proof.
  revert d. induction imgs as [|img imgs IH]; intros d; cbn [foldl].
  - symmetry. apply app_nil_r.
  - rewrite IH, collected_add_image, <- app_assoc. reflexivity.
Qed.

Lemma same_but_photos_foldl imgs d : same_but_photos d (foldl add_image d imgs).
Proof.
  revert d. induction imgs as [|img imgs IH]; intros d; cbn [foldl]; [reflexivity|].
  unfold same_but_photos in *. rewrite IH. destruct d; reflexivity.
Qed.

Lemma onPhoto_delivered env userId w d img :
  userStates w !! userId = Some (UserState.mk preloadedPhotos (Some d)) ->
  delivers env img ->
  let w' := snd (onPhoto env userId w) in
  userStates w' = <[userId := UserState.mk preloadedPhotos (Some (add_image d img))]> (userStates w)
  /\ Events w' = Events w /\ Photos w' = Photos w.
Proof.
  intros H [Hd Hc]. cbn zeta.
  rewrite (onPhoto_preloadedPhotos _ _ _ _ H eq_refl), Hd, Hc. cbn.
  destruct (unlink_fails env); cbn; auto.
Qed.

(** X1. When the download of an image or its transfer to the image host
    fails, in either step that waits for an image, the failure is reported
    and the session keeps its step and everything it has collected; the
    only trace is that a list of preloaded photos that did not exist yet
    may now exist, empty.  Nothing is written to the collections. *)
Theorem failed_image_keeps_session (env : Env) (userId : string) (w : World)
    (us : UserState.t) (d : EventData.t) :
  userStates w !! userId = Some us ->
  UserState.eventData us = Some d ->
  UserState.step us = backgroundImage \/ UserState.step us = preloadedPhotos ->
  download_fails env = true \/ cloudinary env = None ->
  let w' := exec env (OpPhoto userId) w in
  exists d',
    userStates w' !! userId = Some (UserState.mk (UserState.step us) (Some d'))
    /\ (d' = d
        \/ EventData.preloadedPhotos d = None /\ d' = EventData.set_preloadedPhotos [] d)
    /\ collected d' = collected d
    /\ Events w' = Events w /\ Photos w' = Photos w
    /\ replies w' = (replies w ++ [photo_failed])%list.
Proof.
  intros H Hd Hs Hfail. cbn [exec]. cbn zeta.
  assert (us = UserState.mk (UserState.step us) (Some d)) as Hus
    by (destruct us; cbn in *; congruence).
  assert (userStates w !! userId = Some (UserState.mk (UserState.step us) (Some d))) as H'
    by congruence.
  destruct Hs as [Hs|Hs].
  - rewrite (onPhoto_backgroundImage _ _ _ _ H Hs), Hd.
    exists d. destruct (download_fails env); cbn; [auto 10|].
    destruct Hfail as [?|Hc]; [discriminate|]. rewrite Hc. cbn. auto 10.
  - rewrite (onPhoto_preloadedPhotos _ _ _ _ H Hs), Hd.
    destruct (download_fails env); cbn; [exists d; auto 10|].
    destruct Hfail as [?|Hc]; [discriminate|]. rewrite Hc. cbn.
    destruct (EventData.preloadedPhotos d) as [pre|] eqn:Hp; cbn.
    + exists d. auto 10.
    + exists (EventData.set_preloadedPhotos [] d). rewrite Hs, lookup_insert_eq.
      unfold collected. rewrite Hp. cbn. auto 10.
Qed.

(** X2. In step [backgroundImage] an image that is downloaded and
    transferred is stored in the draft as the reference the image host
    returned, the rest of the draft staying as it was, and the session
    moves on to [serviceType].  This happens before the temporary file is
    removed: when that removal fails the failure is reported after the
    confirmation, and the session has moved on all the same. *)
Theorem background_image_stored (env : Env) (userId : string) (w : World)
    (us : UserState.t) (d : EventData.t) (img : Image.t) :
  userStates w !! userId = Some us ->
  UserState.step us = backgroundImage ->
  UserState.eventData us = Some d ->
  delivers env img ->
  let w' := exec env (OpPhoto userId) w in
  exists d',
    userStates w' !! userId = Some (UserState.mk serviceType (Some d'))
    /\ EventData.backgroundImage d' = Some img
    /\ same_but_backgroundImage d d'
    /\ Events w' = Events w /\ Photos w' = Photos w
    /\ replies w'
       = (replies w
          ++ "✅ Background set! Choose: /both, /viewalbum, or /uploadpics"
             :: (if unlink_fails env then [photo_failed] else []))%list.
Proof.
  intros H Hs Hd [Hdl Hc]. cbn [exec]. cbn zeta.
  rewrite (onPhoto_backgroundImage _ _ _ _ H Hs), Hdl, Hc, Hd. cbn.
  exists (EventData.set_backgroundImage img d).
  split; [destruct (unlink_fails env); cbn; apply lookup_insert_eq|].
  split; [reflexivity|]. split; [repeat split|].
  destruct (unlink_fails env); cbn; rewrite <- ?app_assoc; auto.
Qed.

(** X3. In step [preloadedPhotos] the images that are downloaded and
    transferred pile up in the draft in the order they were sent, after the
    ones collected before; the step does not change and nothing is written
    to the collections until the completion command. *)
Theorem preloaded_images_accumulate (userId : string) (envs : list Env)
    (imgs : list Image.t) (w : World) (d : EventData.t) :
  userStates w !! userId = Some (UserState.mk preloadedPhotos (Some d)) ->
  Forall2 delivers envs imgs ->
  let w' := run (photo_messages userId envs) w in
  exists d',
    userStates w' !! userId = Some (UserState.mk preloadedPhotos (Some d'))
    /\ collected d' = (collected d ++ imgs)%list
    /\ same_but_photos d d'
    /\ Events w' = Events w /\ Photos w' = Photos w.
Proof.
  intros H HF. cbn zeta. exists (foldl add_image d imgs).
  rewrite collected_foldl_add_image.
  split; [|split; [reflexivity | split; [apply same_but_photos_foldl|]]].
  - revert w d H. induction HF as [|env img envs imgs Hdel HF IH]; intros w d H.
    + exact H.
    + cbn [photo_messages fmap list_fmap run foldl exec fst snd].
      destruct (onPhoto_delivered env userId w d img H Hdel) as (Hu & _).
      apply (IH (snd (onPhoto env userId w)) (add_image d img)).
      rewrite Hu. apply lookup_insert_eq.
  - revert w d H. induction HF as [|env img envs imgs Hdel HF IH]; intros w d H.
    + split; reflexivity.
    + cbn [photo_messages fmap list_fmap run foldl exec fst snd].
      destruct (onPhoto_delivered env userId w d img H Hdel) as (Hu & He & Hp).
      destruct (IH (snd (onPhoto env userId w)) (add_image d img)) as [He' Hp'].
      { rewrite Hu. apply lookup_insert_eq. }
      unfold photo_messages, run in *. split; congruence.
Qed.

(** ** Inputs that fail the test of their step *)

(** C5, as the code has it. An update other than the start command that
    fails the test the handler makes in the session's current step leaves
    the session as it was, step and draft alike; the map of sessions and
    the two collections are unchanged as well.  The test of the limit step
    is made on what [parseInt] reads of the text, and [/done] is a text
    like any other.  Conversely a text that passes the test of its step in
    the creation chain, in a session with a draft, takes the session to the
    next step, and a photo that passes it and is transferred changes the
    session. *)
Theorem invalid_input_keeps_session (env : Env) (u : Update) (us : UserState.t)
    (w : World) :
  userStates w !! update_sender u = Some us ->
  starts_session u = false ->
  let w' := receive env u w in
  (step_accepts w (UserState.step us) u = false ->
     userStates w' !! update_sender u = Some us
     /\ userStates w' = userStates w
     /\ Events w' = Events w
     /\ Photos w' = Photos w)
  /\ (forall text d,
        u = UpdText (update_sender u) text ->
        UserState.eventData us = Some d ->
        UserState.step us <> eventIdForDisable ->
        step_accepts w (UserState.step us) u = true ->
        exists us',
          userStates w' !! update_sender u = Some us'
          /\ next_step (UserState.step us) = Some (UserState.step us'))
  /\ (forall d img,
        u = UpdPhoto (update_sender u) ->
        UserState.eventData us = Some d ->
        step_accepts w (UserState.step us) u = true ->
        delivers env img ->
        exists us',
          userStates w' !! update_sender u = Some us' /\ us' <> us).
Proof.
  intros H Hstart w'. subst w'. unfold receive.
  destruct u as [userId text|userId]; cbn [update_sender starts_session route] in *.
  - rewrite Hstart. cbn [exec]. split; [|split; [|intros d img [=]]].
    + intros Hv.
      assert (userStates (snd (onText env userId text w)) = userStates w
              /\ Events (snd (onText env userId text w)) = Events w
              /\ Photos (snd (onText env userId text w)) = Photos w)
        as (Hu & He & Hp); [|rewrite Hu; auto].
      destruct (UserState.step us) eqn:Hs; cbn in Hv.
      * rewrite (onText_welcomeText _ _ _ _ _ H Hs).
        apply negb_false_iff in Hv. rewrite Hv. cbn. auto.
      * rewrite (onText_description _ _ _ _ _ H Hs).
        apply negb_false_iff in Hv. rewrite Hv. cbn. auto.
      * rewrite (onText_falls_through _ _ _ _ _ H) by auto. cbn. auto.
      * rewrite (onText_serviceType _ _ _ _ _ H Hs), Hv. cbn. auto.
      * rewrite (onText_uploadLimit _ _ _ _ _ H Hs).
        assert (limit_accepted text = None) as ->; [|cbn; auto].
        unfold limit_accepted. destruct (parseInt text) as [limit|]; [|reflexivity].
        apply negb_false_iff in Hv. rewrite Hv. reflexivity.
      * rewrite (onText_falls_through _ _ _ _ _ H) by auto. cbn. auto.
      * rewrite (onText_eventIdForDisable _ _ _ _ _ H Hs).
        destruct (find_fails env); cbn; [auto|].
        destruct (list_find _ (Events w)) as [found|]; cbn; [|auto].
        apply bool_decide_eq_false in Hv. destruct Hv. eauto.
    + intros text0 d [= <-] Hd Hnd Hv.
      destruct (UserState.step us) eqn:Hs; cbn in Hv; try discriminate;
        try congruence.
      * rewrite (onText_welcomeText _ _ _ _ _ H Hs).
        apply negb_true_iff in Hv. rewrite Hv. unfold advance. rewrite Hd. cbn.
        rewrite lookup_insert_eq. eexists. split; reflexivity.
      * rewrite (onText_description _ _ _ _ _ H Hs).
        apply negb_true_iff in Hv. rewrite Hv. unfold advance. rewrite Hd. cbn.
        rewrite lookup_insert_eq. eexists. split; reflexivity.
      * rewrite (onText_serviceType _ _ _ _ _ H Hs), Hv. unfold advance.
        rewrite Hd. cbn. rewrite lookup_insert_eq. eexists. split; reflexivity.
      * rewrite (onText_uploadLimit _ _ _ _ _ H Hs). unfold limit_accepted.
        destruct (parseInt text) as [limit|]; [|discriminate].
        apply negb_true_iff in Hv. rewrite Hv. unfold advance. rewrite Hd. cbn.
        rewrite lookup_insert_eq. eexists. split; reflexivity.
  - cbn [exec]. split; [|split; [intros text d [=]|]].
    + intros Hv.
      assert (userStates (snd (onPhoto env userId w)) = userStates w
              /\ Events (snd (onPhoto env userId w)) = Events w
              /\ Photos (snd (onPhoto env userId w)) = Photos w)
        as (Hu & He & Hp); [|rewrite Hu; auto].
      rewrite (onPhoto_wrong_step _ _ _ _ H).
      * destruct (download_fails env || unlink_fails env); cbn; auto.
      * intros E. rewrite E in Hv. discriminate.
      * intros E. rewrite E in Hv. discriminate.
    + intros d img _ Hd Hv Hdel.
      destruct (UserState.step us) eqn:Hs; cbn in Hv; try discriminate.
      * destruct Hdel as [Hdl Hc].
        rewrite (onPhoto_backgroundImage _ _ _ _ H Hs), Hdl, Hc, Hd. cbn.
        destruct (unlink_fails env); cbn; rewrite lookup_insert_eq;
          (eexists; split; [reflexivity|]);
          intros E; rewrite <- E in Hs; discriminate.
      * assert (us = UserState.mk preloadedPhotos (Some d)) as ->
          by (destruct us; cbn in *; congruence).
        destruct (onPhoto_delivered env userId w d img H Hdel) as (Hu & _).
        rewrite Hu, lookup_insert_eq. eexists. split; [reflexivity|].
        intros [= E]. apply (f_equal collected) in E.
        rewrite collected_add_image in E. apply (f_equal (@length _)) in E.
        rewrite length_app in E. cbn in E. lia.
Qed.

(** C5 fails as stated: in the limit step a text that is no integer, so
    fails the validation of the state table, is taken for the digits it
    starts with, and the session moves on with them. *)
Lemma loose_number_advances :
  userStates limit_world !! "42" = Some (UserState.mk uploadLimit (Some fresh_draft))
  /\ step_valid limit_world uploadLimit (UpdText "42" "5 photos") = false
  /\ userStates (receive quiet (UpdText "42" "5 photos") limit_world) !! "42"
     = Some (UserState.mk preloadedPhotos
               (Some (EventData.mk "EVT_K3X9A7PQ2" "42" None None None None (Some 5) None)))
  /\ userStates (receive quiet (UpdText "42" "5 photos") limit_world) !! "42"
     <> userStates limit_world !! "42".
Proof. repeat split; try reflexivity. vm_compute. discriminate. Qed.

(** ** Sessions as a transition system *)

Lemma onText_transition env userId text w us us' :
  userStates w !! userId = Some us ->
  userStates (snd (onText env userId text w)) !! userId = Some us' ->
  us' = us \/ text_advances text us us'.
Proof.
  intros H.
  assert (forall f next prompt,
            (forall d, UserState.eventData us = Some d ->
                       text_advances text us (UserState.mk next (Some (f d)))) ->
            userStates (snd (advance userId w us f next prompt)) !! userId = Some us' ->
            us' = us \/ text_advances text us us') as Hadv.
  { intros f next prompt Hstep. unfold advance.
    destruct (UserState.eventData us) as [d|]; cbn.
    - rewrite lookup_insert_eq. intros [= <-]. right. apply Hstep. reflexivity.
    - rewrite H. intros [= <-]. auto. }
  assert (userStates w !! userId = Some us' -> us' = us \/ text_advances text us us') as Hsame
    by (rewrite H; intros [= <-]; auto).
  destruct (UserState.step us) eqn:Hs.
  - rewrite (onText_welcomeText _ _ _ _ _ H Hs).
    destruct (Nat.ltb_spec 100 (String.length text)); [exact Hsame|].
    apply Hadv. intros d Hd. destruct us; cbn in *; subst. constructor. lia.
  - rewrite (onText_description _ _ _ _ _ H Hs).
    destruct (Nat.ltb_spec 200 (String.length text)); [exact Hsame|].
    apply Hadv. intros d Hd. destruct us; cbn in *; subst. constructor. lia.
  - rewrite (onText_falls_through _ _ _ _ _ H) by auto. exact Hsame.
  - rewrite (onText_serviceType _ _ _ _ _ H Hs).
    destruct (includes _ text) eqn:Hin; [|exact Hsame].
    apply Hadv. intros d Hd. destruct us; cbn in *; subst. constructor. assumption.
  - rewrite (onText_uploadLimit _ _ _ _ _ H Hs).
    destruct (limit_accepted text) as [n|] eqn:Hl; [|exact Hsame].
    apply limit_accepted_Some in Hl as [Hn Hr].
    apply Hadv. intros d Hd. destruct us; cbn in *; subst. econstructor; eassumption.
  - rewrite (onText_falls_through _ _ _ _ _ H) by auto. exact Hsame.
  - rewrite (onText_eventIdForDisable _ _ _ _ _ H Hs).
    destruct (find_fails env); [exact Hsame|].
    destruct (list_find _ (Events w)) as [[i event]|]; [|exact Hsame].
    destruct (event_save_fails env); exact Hsame.
Qed.

Lemma onPhoto_transition env userId w us us' :
  userStates w !! userId = Some us ->
  userStates (snd (onPhoto env userId w)) !! userId = Some us' ->
  us' = us \/ photo_advances env us us'.
Proof.
  intros H.
  assert (userStates w !! userId = Some us' -> us' = us \/ photo_advances env us us') as Hsame
    by (rewrite H; intros [= <-]; auto).
  destruct (UserState.step us) eqn:Hs;
    try (rewrite (onPhoto_wrong_step _ _ _ _ H) by congruence;
         destruct (download_fails env || unlink_fails env); exact Hsame).
  - rewrite (onPhoto_backgroundImage _ _ _ _ H Hs).
    destruct (download_fails env); [exact Hsame|].
    destruct (cloudinary env) as [img|] eqn:Hc; [|exact Hsame].
    destruct (UserState.eventData us) as [d|] eqn:Hd; [|exact Hsame].
    assert (us = UserState.mk backgroundImage (Some d)) as ->
      by (destruct us; cbn in *; congruence).
    destruct (unlink_fails env); cbn; rewrite lookup_insert_eq; intros [= <-];
      right; constructor; assumption.
  - rewrite (onPhoto_preloadedPhotos _ _ _ _ H Hs).
    destruct (download_fails env); [exact Hsame|].
    destruct (UserState.eventData us) as [d|] eqn:Hd; [|exact Hsame].
    assert (us = UserState.mk preloadedPhotos (Some d)) as ->
      by (destruct us; cbn in *; congruence).
    destruct (cloudinary env) as [img|] eqn:Hc.
    + destruct (unlink_fails env); cbn; rewrite lookup_insert_eq; intros [= <-];
        right; constructor; assumption.
    + destruct (EventData.preloadedPhotos d) eqn:Hp; [exact Hsame|].
      cbn. rewrite lookup_insert_eq. intros [= <-]. right. constructor. assumption.
Qed.

Lemma text_advances_step text us us' :
  text_advances text us us' -> next_step (UserState.step us) = Some (UserState.step us').
Proof. destruct 1; reflexivity. Qed.

Lemma photo_advances_step env us us' :
  photo_advances env us us' ->
  UserState.step us' = UserState.step us
  \/ next_step (UserState.step us) = Some (UserState.step us').
Proof. destruct 1; cbn; auto. Qed.

(** X4. Sessions of different users are independent: an update from one
    user never changes the session of another, and the two HTTP routes
    change no session at all. *)
Theorem sessions_independent (env : Env) (op : Operation) (w : World) (v : string) :
  sender op <> Some v ->
  userStates (exec env op w) !! v = userStates w !! v.
Proof.
  intros Hne. destruct op as [u|u text|u|u|u|eventId|req]; cbn [exec sender] in *.
  - rewrite onStart_eq. cbn. apply lookup_insert_ne. congruence.
  - apply onText_effect. congruence.
  - apply onPhoto_frame. congruence.
  - apply onDone_effect. congruence.
  - rewrite onDisable_eq. cbn. apply lookup_insert_ne. congruence.
  - rewrite getEvent_world. reflexivity.
  - rewrite postUpload_userStates. reflexivity.
Qed.

(** X5. A text, a photo or the completion command takes a session at most
    one step along the creation chain, in its order: whenever the session
    is still there afterwards it is in the same step or in the next one.
    No message leads into or out of the disable flow, and none goes
    back. *)
Theorem one_step_per_message (env : Env) (userId : string) (m : Message)
    (w : World) (us us' : UserState.t) :
  userStates w !! userId = Some us ->
  userStates (exec env (deliver userId m) w) !! userId = Some us' ->
  UserState.step us' = UserState.step us
  \/ next_step (UserState.step us) = Some (UserState.step us').
Proof.
  intros H H'. destruct m as [text| |]; cbn [deliver exec] in H'.
  - destruct (onText_transition _ _ _ _ _ _ H H') as [->|Hadv]; [auto|].
    right. exact (text_advances_step _ _ _ Hadv).
  - destruct (onPhoto_transition _ _ _ _ _ H H') as [->|Hadv]; [auto|].
    exact (photo_advances_step _ _ _ Hadv).
  - destruct (onText_transition _ _ _ _ _ _ H H') as [->|Hadv]; [auto|].
    right. exact (text_advances_step _ _ _ Hadv).
Qed.

(** ** Drafts in the worlds the system reaches *)

Lemma accepted_token text :
  includes ["/both"; "/viewalbum"; "/uploadpics"] text = true ->
  text = "/both" /\ replace_slash text = "both"
  \/ text = "/viewalbum" /\ replace_slash text = "viewalbum"
  \/ text = "/uploadpics" /\ replace_slash text = "uploadpics".
Proof.
  unfold includes. cbn [existsb]. rewrite !orb_true_iff, !String.eqb_eq.
  intros [->|[->|[->|?]]]; [left | right; left | right; right | discriminate];
    split; reflexivity.
Qed.

Lemma text_advances_wf userId text us us' :
  text_advances text us us' -> session_wf userId us -> session_wf userId us'.
Proof.
  destruct 1 as [d Hl|d Hl|d Hin|d n Hn Hr]; unfold session_wf, draft_upto; cbn;
    intros (_ & Hby & Htok & H1 & H2 & H3 & H4 & H5 & H6);
    (split; [discriminate|]); (split; [assumption|]); (split; [assumption|]);
    repeat split; intros; try lia; eauto; try (apply H1; lia);
    try (apply H2; lia); try (apply H3; lia); try (apply H4; lia);
    try (apply H6; lia).
  destruct (accepted_token _ Hin) as [[_ ->]|[[_ ->]|[_ ->]]];
    eexists; (split; [reflexivity|]); cbn; auto.
Qed.

Lemma photo_advances_wf env userId us us' :
  photo_advances env us us' -> session_wf userId us -> session_wf userId us'.
Proof.
  destruct 1 as [d img Hc|d img Hc|d Hp]; unfold session_wf, draft_upto; cbn;
    intros (_ & Hby & Htok & H1 & H2 & H3 & H4 & H5 & H6);
    (split; [discriminate|]); (split; [assumption|]); (split; [assumption|]);
    repeat split; intros; try lia; eauto; try (apply H1; lia);
    try (apply H2; lia); try (apply H3; lia); try (apply H4; lia);
    try (apply H5; lia); try (apply H6; lia).
Qed.

Lemma exec_sessions_wf env op w : sessions_wf w -> sessions_wf (exec env op w).
Proof.
  intros Hok v us' Hv.
  assert (forall u, sender op = Some u ->
            (userStates (exec env op w) !! u = Some us' ->
             userStates w !! u = Some us' \/ session_wf u us') ->
            session_wf v us') as Hcase.
  { intros u Hsend Hown. destruct (decide (v = u)) as [->|Hne].
    - destruct (Hown Hv) as [Hold|?]; [exact (Hok _ _ Hold) | assumption].
    - apply Hok. rewrite <- Hv. symmetry.
      destruct op as [x|x text|x|x|x|eventId|req]; cbn [exec sender] in *;
        try discriminate; injection Hsend as ->.
      + rewrite onStart_eq. cbn. apply lookup_insert_ne. congruence.
      + apply onText_effect. congruence.
      + apply onPhoto_frame. congruence.
      + apply onDone_effect. congruence.
      + rewrite onDisable_eq. cbn. apply lookup_insert_ne. congruence. }
  destruct op as [u|u text|u|u|u|eventId|req]; cbn [exec] in *.
  - apply (Hcase u eq_refl).
    rewrite onStart_eq. cbn. rewrite lookup_insert_eq. intros [= <-]. right.
    unfold session_wf, draft_upto, generateEventId; cbn.
    split; [discriminate|]. split; [reflexivity|]. split; [eauto|].
    repeat split; intros; try lia; reflexivity.
  - apply (Hcase u eq_refl). intros E.
    destruct (userStates w !! u) as [us|] eqn:H.
    + destruct (onText_transition _ _ _ _ _ _ H E) as [->|Hadv]; [auto|].
      right. exact (text_advances_wf _ _ _ _ Hadv (Hok _ _ H)).
    + rewrite onText_no_session in E by assumption. cbn in E. congruence.
  - apply (Hcase u eq_refl). intros E.
    destruct (userStates w !! u) as [us|] eqn:H.
    + destruct (onPhoto_transition _ _ _ _ _ H E) as [->|Hadv]; [auto|].
      right. exact (photo_advances_wf _ _ _ _ Hadv (Hok _ _ H)).
    + rewrite onPhoto_no_session in E by assumption. cbn in E. congruence.
  - apply (Hcase u eq_refl). intros E. left. exact (onDone_session _ _ _ _ E).
  - apply (Hcase u eq_refl).
    rewrite onDisable_eq. cbn. rewrite lookup_insert_eq. intros [= <-]. right.
    reflexivity.
  - rewrite getEvent_world in Hv. exact (Hok _ _ Hv).
  - rewrite postUpload_userStates in Hv. exact (Hok _ _ Hv).
Qed.

(** X6. Along any run of operations every stored session stays one the
    handlers build: a session without a draft is in the disable flow, and
    a session of the creation chain carries the draft that [/start] seeded
    for that very user ([createdBy] is the user, [eventId] starts with
    ["EVT_"]) with every field of the earlier steps present and within its
    bounds: the welcome text within 100 characters, the description within
    200, the background image, one of the three service types without its
    slash, a limit between 1 and 20; images are collected in the last step
    only.  In particular this holds in every world reached from the empty
    one. *)
Theorem drafts_collected_in_order (ops : list (Env * Operation)) (w : World) :
  sessions_wf w -> sessions_wf (run ops w).
Proof.
  revert w. induction ops as [|[env op] ops IH]; intros w Hok; cbn; [assumption|].
  apply IH, exec_sessions_wf, Hok.
Qed.

(** X7. Each token the [serviceType] step accepts is stored, slash
    removed, as a value of the schema's enum, so that the choice made in
    the conversation can never make the validation of the Event fail. *)
Theorem accepted_service_type_is_valid (text : string) :
  includes ["/both"; "/viewalbum"; "/uploadpics"] text = true ->
  text = "/both" /\ castServiceType (Some (replace_slash text)) = Some both
  \/ text = "/viewalbum" /\ castServiceType (Some (replace_slash text)) = Some viewalbum
  \/ text = "/uploadpics" /\ castServiceType (Some (replace_slash text)) = Some uploadpics.
Proof.
  intros H.
  destruct (accepted_token _ H) as [[-> _]|[[-> _]|[-> _]]];
    [left | right; left | right; right]; split; reflexivity.
Qed.

(** ** The disable flow *)

Lemma list_find_eventId_insert (events : list Event.t) eventId i event st :
  list_find (fun e => Event.eventId e = eventId) events = Some (i, event) ->
  list_find (fun e => Event.eventId e = eventId) (<[i := Event.set_status st event]> events)
  = Some (i, Event.set_status st event).
Proof.
  intros H. apply list_find_Some in H as (Hi & Hid & Hbefore).
  apply list_find_Some. split; [|split].
  - apply list_lookup_insert_eq. eapply lookup_lt_Some, Hi.
  - destruct event; exact Hid.
  - intros j y Hj Hlt. rewrite list_lookup_insert_ne in Hj by lia.
    exact (Hbefore j y Hj Hlt).
Qed.

(** X8. The disable conversation does not end by itself: whatever the text
    and whatever becomes of the lookup and the save, the handler deletes
    the session and then stores it again, so the user stays in step
    [eventIdForDisable] and the next text is taken as an event id again. *)
Theorem disable_flow_keeps_session (env : Env) (userId text : string) (w : World)
    (us : UserState.t) :
  userStates w !! userId = Some us ->
  UserState.step us = eventIdForDisable ->
  userStates (exec env (OpText userId text) w) = userStates w.
Proof.
  intros H Hs. cbn [exec]. rewrite (onText_eventIdForDisable _ _ _ _ _ H Hs).
  destruct (find_fails env); [reflexivity|].
  destruct (list_find _ (Events w)) as [[i event]|]; [|reflexivity].
  destruct (event_save_fails env); reflexivity.
Qed.

(** X9. Any user in the disable flow can close any event: the handler
    looks the event up by the id alone and never compares [createdBy] with
    the sender.  Once the save has gone through, the event is found with
    status disabled, every submission for it is refused with "Uploads not
    allowed" and the query route reports [uploadEnabled] false. *)
Theorem disable_closes_event (env : Env) (userId text : string) (w : World)
    (us : UserState.t) (i : nat) (event : Event.t) :
  userStates w !! userId = Some us ->
  UserState.step us = eventIdForDisable ->
  find_fails env = false ->
  event_save_fails env = false ->
  list_find (fun e => Event.eventId e = text) (Events w) = Some (i, event) ->
  let w' := exec env (OpText userId text) w in
  list_find (fun e => Event.eventId e = text) (Events w')
    = Some (i, Event.set_status disabled event)
  /\ (forall env' req,
        find_fails env' = false -> Request.eventId req = text ->
        postUpload env' req w' = (Ok not_allowed, w'))
  /\ (forall env',
        find_fails env' = false ->
        exists preloadedPhotos guestPhotos,
          fst (getEvent env' text w')
          = Ok (json 200 (EventBody (Event.set_status disabled event)
                            preloadedPhotos guestPhotos false))).
Proof.
  intros H Hs Hfind Hsave Hf. cbn [exec]. cbn zeta.
  rewrite (onText_eventIdForDisable _ _ _ _ _ H Hs), Hfind, Hf, Hsave. cbn [snd].
  assert (list_find (fun e => Event.eventId e = text)
            (Events (said ("✅ Uploads disabled for event: " ++ text)
                       (with_Events (<[i:=Event.set_status disabled event]> (Events w)) w)))
          = Some (i, Event.set_status disabled event)) as Hf'
    by (cbn; apply list_find_eventId_insert, Hf).
  split; [exact Hf'|]. split.
  - intros env' req Hfind' <-. rewrite postUpload_eq, Hfind', Hf'. reflexivity.
  - intros env' Hfind'. unfold getEvent, Event_findOne, Photo_find_sorted. io.
    rewrite Hfind'. cbn in Hf'. rewrite Hf'. cbn.
    eexists _, _. unfold uploadEnabled. cbn. reflexivity.
Qed.

(** ** How the store changes *)

Lemma created_event_Some env us w event :
  created_event env us w = Some event ->
  Event_new (now env) (UserState.eventData us) = Some event
  /\ existsb (fun e => String.eqb (Event.eventId e) (Event.eventId event)) (Events w) = false.
Proof.
  unfold created_event. destruct (event_save_fails env); [discriminate|].
  destruct (Event_new _ _) as [e|]; [|discriminate].
  destruct (existsb _ _) eqn:E; [discriminate|]. intros [= <-]. auto.
Qed.

Lemma exec_store_step env op w : store_step env w (exec env op w).
Proof.
  destruct op as [u|u text|u|u|u|eventId|req]; cbn [exec].
  - apply store_same; reflexivity.
  - destruct (onText_effect env u text w) as (Hp & _ & [He | (i & e & Hi & He)]).
    + apply store_same; assumption.
    + eapply store_disabled; eassumption.
  - destruct (onPhoto_frame env u w) as (He & Hp & _). apply store_same; assumption.
  - destruct (userStates w !! u) as [us|] eqn:H.
    2:{ rewrite onDone_noop; [apply store_same; reflexivity | intros us; congruence]. }
    destruct (Step_eqb (UserState.step us) preloadedPhotos) eqn:Hs.
    2:{ rewrite onDone_noop; [apply store_same; reflexivity|].
        intros us0 Hus0. assert (us0 = us) as -> by congruence.
        intros E. rewrite E in Hs. discriminate. }
    assert (UserState.step us = preloadedPhotos) as Hstep
      by (destruct (UserState.step us); cbn in Hs; congruence).
    rewrite (onDone_preloadedPhotos _ _ _ _ H Hstep).
    destruct (created_event env us w) as [event|] eqn:Hc;
      [|apply store_same; reflexivity].
    destruct (UserState.eventData us) as [d|] eqn:Hd;
      [|apply store_same; reflexivity].
    eapply store_created; try eassumption; reflexivity.
  - apply store_same; reflexivity.
  - rewrite getEvent_world. apply store_same; reflexivity.
  - rewrite postUpload_eq.
    destruct (find_fails env); [apply store_same; reflexivity|].
    destruct (list_find _ (Events w)) as [[i event]|] eqn:Hf;
      [|apply store_same; reflexivity].
    destruct (Status_eqb _ _ || ServiceType_eqb _ _) eqn:Hgate;
      [apply store_same; reflexivity|].
    destruct (count_fails env); [apply store_same; reflexivity|].
    destruct (Z.leb_spec (Event.uploadLimit event)
                (prior_uploads (Request.eventId req) (Request.ip req) w));
      [apply store_same; reflexivity|].
    destruct (Request.file req); [|apply store_same; reflexivity].
    destruct (cloudinary env) as [img|]; [|apply store_same; reflexivity].
    cbn zeta. destruct (photo_save_fails env 0); [apply store_same; reflexivity|].
    destruct (Photo_valid _) eqn:Hv; [|apply store_same; reflexivity].
    apply orb_false_iff in Hgate as [Hst Hmode].
    eapply (store_uploaded env _ _ req img i event); try eassumption;
      try reflexivity.
    + destruct (Event.status event); [reflexivity | discriminate].
    + intros E. rewrite E in Hmode. discriminate.
Qed.

(** ** Invariants of the store *)

Lemma run_invariant (P : World -> Prop) :
  (forall env op w, P w -> P (exec env op w)) ->
  forall ops w, P w -> P (run ops w).
Proof.
  intros Hstep ops. induction ops as [|[env op] ops IH]; intros w Hw; cbn; [assumption|].
  apply IH, Hstep, Hw.
Qed.

#[local] Arguments required : simpl never.
#[local] Arguments maxlength : simpl never.
#[local] Arguments castServiceType : simpl never.
#[local] Arguments castUploadLimit : simpl never.

Lemma required_Some v s : required v = Some s -> v = Some s /\ s <> "".
Proof.
  unfold required. destruct v as [x|]; [|discriminate].
  destruct (String.eqb_spec x ""); [discriminate|]. intros [= <-]. auto.
Qed.

Lemma maxlength_Some n s s' : maxlength n s = Some s' -> s' = s /\ (String.length s <= n)%nat.
Proof.
  unfold maxlength. destruct (Nat.leb_spec (String.length s) n); [|discriminate].
  intros [= <-]. auto.
Qed.

Lemma castUploadLimit_Some v n : castUploadLimit v = Some n -> n = default 5 v /\ 1 <= n <= 20.
Proof.
  unfold castUploadLimit.
  destruct (Z.leb_spec 1 (default 5 v)); cbn; [|discriminate].
  destruct (Z.leb_spec (default 5 v) 20); cbn; [|discriminate].
  intros [= <-]. split; [reflexivity | lia].
Qed.

Lemma Event_new_Some t data event :
  Event_new t data = Some event ->
  exists d mode,
    data = Some d
    /\ castServiceType (EventData.serviceType d) = Some mode
    /\ event = Event.mk (EventData.eventId d)
                 (default "" (EventData.welcomeText d))
                 (default "" (EventData.description d))
                 (EventData.backgroundImage d) mode
                 (default 5 (EventData.uploadLimit d))
                 (castPreloaded t <$> collected d)
                 (EventData.createdBy d) active t
    /\ Event_ok event.
Proof.
  unfold Event_new. destruct data as [d|]; [|discriminate]. cbn.
  destruct (required (Some (EventData.eventId d))) as [eid|] eqn:E1; [|discriminate]. cbn.
  destruct (required (EventData.welcomeText d)) as [wt|] eqn:E2; [|discriminate]. cbn.
  destruct (maxlength 100 wt) as [wt'|] eqn:E3; [|discriminate]. cbn.
  destruct (required (EventData.description d)) as [ds|] eqn:E4; [|discriminate]. cbn.
  destruct (maxlength 200 ds) as [ds'|] eqn:E5; [|discriminate]. cbn.
  destruct (castServiceType (EventData.serviceType d)) as [mode|] eqn:E6; [|discriminate]. cbn.
  destruct (castUploadLimit (EventData.uploadLimit d)) as [ul|] eqn:E7; [|discriminate]. cbn.
  destruct (required (Some (EventData.createdBy d))) as [cb|] eqn:E8; [|discriminate]. cbn.
  intros [= <-].
  apply required_Some in E1 as [[= <-] ?], E2 as [E2 ?], E4 as [E4 ?], E8 as [[= <-] ?].
  apply maxlength_Some in E3 as [-> ?], E5 as [-> ?].
  apply castUploadLimit_Some in E7 as [-> ?].
  exists d, mode. rewrite E2, E4. unfold Event_ok. cbn.
  repeat split; auto; lia.
Qed.

Lemma Photo_valid_true p :
  Photo_valid p = true <->
  Photo.eventId p <> "" /\ Photo.public_id p <> "" /\ Photo.url p <> "".
Proof.
  unfold Photo_valid. rewrite !andb_true_iff, !negb_true_iff.
  destruct (String.eqb_spec (Photo.eventId p) ""), (String.eqb_spec (Photo.public_id p) ""),
    (String.eqb_spec (Photo.url p) ""); intuition congruence.
Qed.

Lemma preloaded_photos_Forall (P : Photo.t -> Prop) env eventId i imgs :
  Forall (fun img => forall j, P (preloaded_photo env eventId j img)) imgs ->
  Forall P (preloaded_photos env eventId i imgs).
Proof.
  intros H. revert i. induction H as [|img rest Himg _ IH]; intros i; cbn.
  - constructor.
  - constructor; [apply Himg | apply IH].
Qed.

Lemma saved_count_valid env eventId i photos :
  Forall (fun img => Photo_valid (preloaded_photo env eventId 0 img) = true)
    (take (saved_count env eventId i photos) photos).
Proof.
  revert i. induction photos as [|img rest IH]; intros i; cbn; [constructor|].
  destruct (photo_save_fails env i); [constructor|].
  destruct (Photo_valid _) eqn:Hv; [|constructor].
  cbn. constructor; [exact Hv | apply IH].
Qed.

Lemma existsb_eventId_false (events : list Event.t) eventId :
  existsb (fun e => String.eqb (Event.eventId e) eventId) events = false ->
  eventId ∉ (Event.eventId <$> events).
Proof.
  induction events as [|e rest IH]; cbn; [intros _; apply not_elem_of_nil|].
  intros H. apply orb_false_iff in H as [H1 H2].
  apply not_elem_of_cons. split; [|apply IH, H2].
  apply String.eqb_neq in H1. congruence.
Qed.

Lemma eventIds_set_status (events : list Event.t) i event st :
  events !! i = Some event ->
  Event.eventId <$> <[i := Event.set_status st event]> events = Event.eventId <$> events.
Proof.
  intros H. rewrite list_fmap_insert. apply list_insert_id.
  rewrite list_lookup_fmap, H. destruct event; reflexivity.
Qed.

Lemma store_step_eventIds env w w' :
  store_step env w w' ->
  exists created, Event.eventId <$> Events w' = ((Event.eventId <$> Events w) ++ created)%list.
Proof.
  destruct 1 as [He _|i e Hi He _|us d event Hc Hd He _|req img i event _ _ _ _ _ He _];
    rewrite He.
  - exists []. symmetry. apply app_nil_r.
  - exists []. rewrite (eventIds_set_status _ _ _ _ Hi). symmetry. apply app_nil_r.
  - exists [Event.eventId event]. rewrite fmap_app. reflexivity.
  - exists []. symmetry. apply app_nil_r.
Qed.

(** X10. The [eventId] stays unique: if no two Events of the store share
    their [eventId], no run of operations makes two of them share it; a
    completion whose [eventId] is taken is rejected by the unique index. *)
Theorem event_ids_stay_unique (ops : list (Env * Operation)) (w : World) :
  NoDup (Event.eventId <$> Events w) ->
  NoDup (Event.eventId <$> Events (run ops w)).
Proof.
  revert ops w.
  apply (run_invariant (fun w => NoDup (Event.eventId <$> Events w))).
  intros env op w Hnd.
  destruct (exec_store_step env op w)
    as [He _|i e Hi He _|us d event Hc Hd He _|req img i event _ _ _ _ _ He _];
    rewrite He; try assumption.
  - rewrite (eventIds_set_status _ _ _ _ Hi). assumption.
  - rewrite fmap_app. apply NoDup_app. split; [assumption|]. split.
    + intros x Hx Hin. cbn in Hin. apply list_elem_of_singleton in Hin as ->.
      apply created_event_Some in Hc as [_ Hfresh].
      exact (existsb_eventId_false _ _ Hfresh Hx).
    + cbn. apply NoDup_singleton.
Qed.

(** X11. Every Event of the store keeps within the bounds of the schema
    along any run: a non-empty [eventId] and [createdBy], a non-empty
    welcome text of at most 100 characters, a non-empty description of at
    most 200, an [uploadLimit] between 1 and 20.  A draft outside these
    bounds is never stored. *)
Theorem events_stay_within_schema (ops : list (Env * Operation)) (w : World) :
  Forall Event_ok (Events w) -> Forall Event_ok (Events (run ops w)).
Proof.
  revert ops w. apply (run_invariant (fun w => Forall Event_ok (Events w))).
  intros env op w Hok.
  destruct (exec_store_step env op w)
    as [He _|i e Hi He _|us d event Hc Hd He _|req img i event _ _ _ _ _ He _];
    rewrite He; try assumption.
  - apply Forall_insert; [assumption|].
    pose proof (Forall_lookup_1 _ _ _ _ Hok Hi) as Hev. destruct e; exact Hev.
  - apply Forall_app. split; [assumption|]. constructor; [|constructor].
    apply created_event_Some in Hc as [Hnew _].
    apply Event_new_Some in Hnew as (? & ? & _ & _ & _ & Hev). exact Hev.
Qed.

(** X12. A disabled Event is never enabled again: along any run an Event
    that is disabled stays in the store, at its place and with its
    [eventId], and stays disabled.  No handler ever writes the status
    active to an existing Event. *)
Theorem disabled_stays_disabled (ops : list (Env * Operation)) (w : World)
    (i : nat) (event : Event.t) :
  Events w !! i = Some event ->
  Event.status event = disabled ->
  exists event',
    Events (run ops w) !! i = Some event'
    /\ Event.eventId event' = Event.eventId event
    /\ Event.status event' = disabled.
Proof.
  intros Hi Hst.
  assert (exists event', Events w !! i = Some event'
                         /\ Event.eventId event' = Event.eventId event
                         /\ Event.status event' = disabled) as Hinit by eauto.
  revert Hinit. clear Hi Hst. revert ops w.
  apply (run_invariant (fun w => exists event', Events w !! i = Some event'
                                   /\ Event.eventId event' = Event.eventId event
                                   /\ Event.status event' = disabled)).
  intros env op w (e0 & Hi & Hid & Hst).
  destruct (exec_store_step env op w)
    as [He _|j e Hj He _|us d ev Hc Hd He _|req img j ev _ _ _ _ _ He _];
    rewrite He; eauto.
  - destruct (decide (j = i)) as [->|Hne].
    + exists (Event.set_status disabled e0).
      assert (e = e0) as -> by congruence.
      split; [apply list_lookup_insert_eq; eapply lookup_lt_Some, Hi|].
      destruct e0; cbn in *; auto.
    + exists e0. rewrite list_lookup_insert_ne by assumption. auto.
  - exists e0. split; [apply lookup_app_l_Some, Hi | auto].
Qed.

(** X13. Every stored Photo belongs to an Event of the store, and this is
    kept along any run: [/done] saves the Event before its Photos, the
    upload route stores a Photo only for an Event it has found, and no
    Event is ever removed or renamed. *)
Theorem photos_keep_their_event (ops : list (Env * Operation)) (w : World) :
  photos_refer w -> photos_refer (run ops w).
Proof.
  revert ops w. apply (run_invariant photos_refer).
  intros env op w Hok. unfold photos_refer in *.
  pose proof (exec_store_step env op w) as Hstep.
  destruct (store_step_eventIds _ _ _ Hstep) as [created Hids]. rewrite Hids.
  assert (Forall (fun p => Photo.eventId p ∈ ((Event.eventId <$> Events w) ++ created)%list)
            (Photos w)) as Hold.
  { eapply Forall_impl; [exact Hok|]. intros p Hp. apply elem_of_app. auto. }
  destruct Hstep
    as [_ Hp|i e _ _ Hp|us d event Hc Hd He Hp|req img i event Hf _ _ _ _ He Hp];
    rewrite Hp; try assumption.
  - apply Forall_app. split; [assumption|].
    apply preloaded_photos_Forall, Forall_true. intros img j. cbn.
    rewrite <- Hids, He, fmap_app. apply elem_of_app. right. cbn.
    apply created_event_Some in Hc as [Hnew _].
    apply Event_new_Some in Hnew as (d' & mode & Hd' & _ & -> & _). cbn.
    rewrite Hd in Hd'. injection Hd' as <-. apply list_elem_of_singleton. reflexivity.
  - apply Forall_app. split; [assumption|]. constructor; [|constructor]. cbn.
    apply elem_of_app. left. apply list_find_Some in Hf as (Hi & <- & _).
    apply list_elem_of_fmap. exists event. split; [reflexivity|].
    eapply list_elem_of_lookup_2, Hi.
Qed.

(** X14. Every Photo the system stores has its required paths filled, is
    approved, and carries the uploader's address exactly when it is a guest
    upload (a preloaded Photo carries none); this is kept along any run.
    As no Photo is ever stored unapproved, the filter [approved: true] of
    the query route hides nothing the system stored. *)
Theorem photos_stay_well_formed (ops : list (Env * Operation)) (w : World) :
  Forall Photo_ok (Photos w) -> Forall Photo_ok (Photos (run ops w)).
Proof.
  revert ops w. apply (run_invariant (fun w => Forall Photo_ok (Photos w))).
  intros env op w Hok.
  destruct (exec_store_step env op w)
    as [_ Hp|i e _ _ Hp|us d event Hc Hd He Hp|req img i event Hf _ _ _ Hv He Hp];
    rewrite Hp; try assumption.
  - apply Forall_app. split; [assumption|]. apply preloaded_photos_Forall.
    eapply Forall_impl; [apply saved_count_valid|].
    intros img Hv j. apply Photo_valid_true in Hv as (? & ? & ?). cbn.
    unfold Photo_ok. cbn. repeat split; auto; try discriminate.
    intros [x Hx]. discriminate.
  - apply Forall_app. split; [assumption|]. constructor; [|constructor].
    apply Photo_valid_true in Hv as (? & ? & ?).
    unfold Photo_ok. cbn. repeat split; eauto.
Qed.

(** ** The quota along a run *)

Lemma list_find_kept (before after : list Event.t) eventId i event :
  events_kept before after ->
  list_find (fun e => Event.eventId e = eventId) before = Some (i, event) ->
  exists event',
    list_find (fun e => Event.eventId e = eventId) after = Some (i, event')
    /\ same_but_status event event'.
Proof.
  intros (kept & created & -> & HF) Hf.
  apply list_find_Some in Hf as (Hi & Hid & Hbefore).
  destruct (Forall2_lookup_l _ _ _ _ _ HF Hi) as (event' & Hk & Hsame).
  exists event'. split; [|assumption].
  apply list_find_Some. split; [apply lookup_app_l_Some, Hk|]. split.
  - apply same_but_status_fields in Hsame as (-> & _). assumption.
  - intros j y Hj Hlt.
    assert (j < length kept)%nat as Hjk
      by (rewrite <- (Forall2_length _ _ _ HF); apply lookup_lt_Some in Hi; lia).
    rewrite lookup_app_l in Hj by assumption.
    destruct (Forall2_lookup_r _ _ _ _ _ HF Hj) as (x & Hx & Hxy).
    apply same_but_status_fields in Hxy as (-> & _).
    exact (Hbefore j x Hx Hlt).
Qed.

Lemma prior_uploads_added eventId ip w w' added :
  Photos w' = (Photos w ++ added)%list ->
  prior_uploads eventId ip w'
  = prior_uploads eventId ip w
    + Z.of_nat (length (filter (fun p => guest_upload_of eventId ip p = true) added)).
Proof.
  intros H. unfold prior_uploads. rewrite H, filter_app, length_app. lia.
Qed.

Lemma preloaded_not_counted eventId ip env eid i (imgs : list Image.t) :
  filter (fun p => guest_upload_of eventId ip p = true) (preloaded_photos env eid i imgs) = [].
Proof.
  revert i. induction imgs as [|img imgs IH]; intros i; [reflexivity|].
  cbn [preloaded_photos].
  rewrite filter_cons_False; [apply IH|].
  unfold guest_upload_of, preloaded_photo. cbn. rewrite andb_false_r. discriminate.
Qed.

Lemma guest_upload_of_guest_photo eventId ip env req img :
  guest_upload_of eventId ip (guest_photo env req img) = true
  <-> Request.eventId req = eventId /\ Request.ip req = ip.
Proof.
  unfold guest_upload_of, guest_photo. cbn.
  rewrite !andb_true_iff, !String.eqb_eq. intuition.
Qed.

(** X15. Served one request after the other, the upload route never lets
    an uploader exceed the quota: for an Event of the store, along any run
    of operations, the number of guest Photos stored for the event under
    one address never grows beyond the Event's [uploadLimit] (or beyond
    what it was at the start, if that was already more).  Preloaded Photos
    and uploads under other addresses or for other events do not count. *)
Theorem quota_never_exceeded (ops : list (Env * Operation)) (w : World)
    (eventId ip : string) (i : nat) (event : Event.t) :
  list_find (fun e => Event.eventId e = eventId) (Events w) = Some (i, event) ->
  prior_uploads eventId ip (run ops w)
  <= Z.max (prior_uploads eventId ip w) (Event.uploadLimit event).
Proof.
  intros Hf.
  remember (Z.max (prior_uploads eventId ip w) (Event.uploadLimit event)) as bound eqn:Hb.
  assert (prior_uploads eventId ip w <= bound) as Hle0 by lia.
  assert (Event.uploadLimit event <= bound) as HL by lia.
  assert (exists event',
            list_find (fun e => Event.eventId e = eventId) (Events w) = Some (i, event')
            /\ Event.uploadLimit event' = Event.uploadLimit event) as Hex0 by eauto.
  clear Hb Hf. revert w Hle0 Hex0. intros w Hle0 Hex0.
  refine (proj2 (run_invariant
                   (fun w' =>
                      (exists event',
                         list_find (fun e => Event.eventId e = eventId) (Events w')
                         = Some (i, event')
                         /\ Event.uploadLimit event' = Event.uploadLimit event)
                      /\ prior_uploads eventId ip w' <= bound)
                   _ ops w (conj Hex0 Hle0))).
  clear w Hle0 Hex0.
  intros env op w0 [(e0 & Hf0 & Hlim) Hle]. split.
  - destruct (list_find_kept _ _ _ _ _ (exec_events_kept env op w0) Hf0)
      as (e1 & Hf1 & Hsame).
    exists e1. split; [assumption|].
    apply same_but_status_fields in Hsame. intuition congruence.
  - destruct (exec_store_step env op w0)
      as [_ Hp|j e _ _ Hp|us d ev Hc Hd He Hp|req img j ev Hfr _ _ Hq _ He Hp].
    + rewrite (prior_uploads_added eventId ip w0 _ [])
        by (rewrite Hp; symmetry; apply app_nil_r).
      cbn. lia.
    + rewrite (prior_uploads_added eventId ip w0 _ [])
        by (rewrite Hp; symmetry; apply app_nil_r).
      cbn. lia.
    + rewrite (prior_uploads_added eventId ip w0 _ _ Hp), preloaded_not_counted.
      cbn. lia.
    + rewrite (prior_uploads_added eventId ip w0 _ _ Hp).
      destruct (guest_upload_of eventId ip (guest_photo env req img)) eqn:Hg.
      * rewrite filter_cons_True, filter_nil by assumption. cbn [length].
        apply guest_upload_of_guest_photo in Hg as [Hid Hip].
        rewrite Hid, Hip in *. rewrite Hf0 in Hfr. injection Hfr as _ <-.
        lia.
      * rewrite filter_cons_False, filter_nil by congruence. cbn. lia.
Qed.

Lemma postUpload_Photos env req w :
  Photos (snd (postUpload env req w)) = Photos w
  \/ exists img,
       Photos (snd (postUpload env req w)) = (Photos w ++ [guest_photo env req img])%list.
Proof.
  rewrite postUpload_eq. cbn zeta.
  repeat match goal with
    | |- context [match ?x with _ => _ end] => destruct x; auto
    end; right; eauto.
Qed.

(** X16. An upload counts against its own pair of event and address only:
    whatever its outcome, the count of prior uploads of any other event or
    any other address is what it was. *)
Theorem upload_counts_for_its_own_key (env : Env) (req : Request.t) (w : World)
    (eventId ip : string) :
  Request.eventId req <> eventId \/ Request.ip req <> ip ->
  prior_uploads eventId ip (exec env (OpUpload req) w) = prior_uploads eventId ip w.
Proof.
  intros Hne. cbn [exec].
  destruct (postUpload_Photos env req w) as [Hp | [img Hp]].
  - rewrite (prior_uploads_added eventId ip w _ [])
      by (rewrite Hp; symmetry; apply app_nil_r).
    cbn. lia.
  - rewrite (prior_uploads_added eventId ip w _ _ Hp).
    rewrite filter_cons_False, filter_nil; [cbn; lia|].
    rewrite guest_upload_of_guest_photo. tauto.
Qed.

(** ** The failures of the upload route *)

(** X17. Past the gate and with quota left, an upload that fails is
    answered with status 500 "Upload failed".  When no file came with the
    request, when the transfer to the image host fails, or when the store
    or the schema rejects the Photo, nothing is stored.  When only the
    removal of the temporary file fails, the answer is the same failure
    although the Photo is stored, and it counts against the quota.  A failed
    lookup or count is answered with the same status and stores nothing. *)
Theorem upload_failure_modes (env : Env) (req : Request.t) (w : World)
    (i : nat) (event : Event.t) :
  list_find (fun e => Event.eventId e = Request.eventId req) (Events w) = Some (i, event) ->
  Event.status event = active ->
  Event.serviceType event <> viewalbum ->
  prior_uploads (Request.eventId req) (Request.ip req) w < Event.uploadLimit event ->
  (find_fails env = true \/ count_fails env = true ->
     postUpload env req w = (Ok upload_failed, w))
  /\ (find_fails env = false -> count_fails env = false ->
      (Request.file req = None \/ cloudinary env = None
       \/ photo_save_fails env 0 = true
       \/ (exists img, cloudinary env = Some img
                       /\ Photo_valid (guest_photo env req img) = false) ->
         postUpload env req w = (Ok upload_failed, w))
      /\ (forall img,
            is_Some (Request.file req) -> cloudinary env = Some img ->
            photo_save_fails env 0 = false ->
            Photo_valid (guest_photo env req img) = true ->
            unlink_fails env = true ->
            postUpload env req w
              = (Ok upload_failed, with_Photos (Photos w ++ [guest_photo env req img]) w)
            /\ prior_uploads (Request.eventId req) (Request.ip req)
                 (snd (postUpload env req w))
               = prior_uploads (Request.eventId req) (Request.ip req) w + 1)).
Proof.
  intros Hf Hs Hm Hq.
  assert ((Event.uploadLimit event
           <=? prior_uploads (Request.eventId req) (Request.ip req) w) = false) as Hq'
    by (apply Z.leb_gt; assumption).
  rewrite postUpload_eq, Hf, (gate_open _ Hs Hm), Hq'. split.
  - intros [-> | Hc]; [reflexivity|].
    destruct (find_fails env); [reflexivity|]. rewrite Hc. reflexivity.
  - intros -> ->. split.
    + intros [Hfile | [Hc | [Hsave | (img & Hc & Hv)]]].
      * rewrite Hfile. reflexivity.
      * rewrite Hc. destruct (Request.file req); reflexivity.
      * destruct (Request.file req), (cloudinary env); try reflexivity.
        cbn zeta. rewrite Hsave. reflexivity.
      * rewrite Hc. destruct (Request.file req); [|reflexivity].
        cbn zeta. rewrite Hv. destruct (photo_save_fails env 0); reflexivity.
    + intros img [path Hfile] Hc Hsave Hv Hunlink.
      rewrite Hfile, Hc. cbn zeta. rewrite Hsave, Hv, Hunlink. split; [reflexivity|].
      cbn [snd]. apply prior_uploads_after; reflexivity.
Qed.

(** ** The query route *)

Lemma insert_desc_Permutation p l : insert_desc p l ≡ₚ p :: l.
Proof.
  induction l as [|q rest IH]; cbn; [reflexivity|].
  destruct (Photo.uploadedAt q <=? Photo.uploadedAt p); [reflexivity|].
  rewrite IH. apply Permutation_swap.
Qed.

Lemma sort_desc_Permutation l : sort_desc l ≡ₚ l.
Proof.
  unfold sort_desc. induction l as [|p rest IH]; cbn; [reflexivity|].
  rewrite insert_desc_Permutation, IH. reflexivity.
Qed.

Lemma insert_desc_sorted p l : newest_first l -> newest_first (insert_desc p l).
Proof.
  unfold newest_first. induction l as [|q rest IH]; intros Hl; cbn.
  - repeat constructor.
  - apply StronglySorted_cons in Hl as [Hq Hrest].
    destruct (Z.leb_spec (Photo.uploadedAt q) (Photo.uploadedAt p)).
    + apply StronglySorted_cons. split.
      * constructor; [assumption|].
        eapply Forall_impl; [exact Hq|]. intros x Hx. cbn in *. lia.
      * apply StronglySorted_cons. auto.
    + apply StronglySorted_cons. split; [|apply IH, Hrest].
      rewrite insert_desc_Permutation. constructor; [lia | assumption].
Qed.

Lemma sort_desc_sorted l : newest_first (sort_desc l).
Proof.
  unfold sort_desc. induction l as [|p rest IH]; cbn.
  - constructor.
  - apply insert_desc_sorted, IH.
Qed.

(** X18. The query route only reads: whatever it answers, the sessions
    and both collections are what they were.  An [eventId] that no Event
    has is answered with 404 "Event not found", a failed lookup with 500
    "Server error". *)
Theorem query_route_reads_only (env : Env) (eventId : string) (w : World) :
  snd (getEvent env eventId w) = w
  /\ (find_fails env = true -> fst (getEvent env eventId w) = Ok server_error)
  /\ (find_fails env = false ->
      list_find (fun e => Event.eventId e = eventId) (Events w) = None ->
      fst (getEvent env eventId w) = Ok event_not_found).
Proof.
  split; [apply getEvent_world|].
  unfold getEvent, Event_findOne, Photo_find_sorted. io. split.
  - intros ->. reflexivity.
  - intros -> Hf. cbn. rewrite Hf. reflexivity.
Qed.

(** X19. For an existing Event the query route returns two lists: the
    preloaded Photos of that event, all of them and no other Photo, and its
    approved guest Photos, all of them and no other; each list is ordered
    newest first.  Photos of other events never show up. *)
Theorem query_lists (env : Env) (eventId : string) (w : World)
    (i : nat) (event : Event.t) :
  find_fails env = false ->
  list_find (fun e => Event.eventId e = eventId) (Events w) = Some (i, event) ->
  exists preloadedPhotos guestPhotos flag,
    fst (getEvent env eventId w)
      = Ok (json 200 (EventBody event preloadedPhotos guestPhotos flag))
    /\ preloadedPhotos ≡ₚ filter (fun p => preloaded_of eventId p = true) (Photos w)
    /\ guestPhotos ≡ₚ filter (fun p => approved_guest_of eventId p = true) (Photos w)
    /\ newest_first preloadedPhotos /\ newest_first guestPhotos
    /\ (forall p, p ∈ preloadedPhotos ->
          Photo.eventId p = eventId /\ Photo.uploadType p = preloaded)
    /\ (forall p, p ∈ guestPhotos ->
          Photo.eventId p = eventId /\ Photo.uploadType p = guest
          /\ Photo.approved p = true).
Proof.
  intros Hfind Hf. unfold getEvent, Event_findOne, Photo_find_sorted. io.
  rewrite Hfind, Hf. cbn.
  eexists _, _, _. split; [reflexivity|].
  split; [apply sort_desc_Permutation|]. split; [apply sort_desc_Permutation|].
  split; [apply sort_desc_sorted|]. split; [apply sort_desc_sorted|]. split.
  - intros p Hp. rewrite sort_desc_Permutation in Hp.
    apply list_elem_of_filter in Hp as [Hp _]. unfold preloaded_of in Hp.
    apply andb_true_iff in Hp as [Hid Ht]. apply String.eqb_eq in Hid.
    destruct (Photo.uploadType p); cbn in Ht; [auto | discriminate].
  - intros p Hp. rewrite sort_desc_Permutation in Hp.
    apply list_elem_of_filter in Hp as [Hp _]. unfold approved_guest_of in Hp.
    apply andb_true_iff in Hp as [Hp Ha]. apply andb_true_iff in Hp as [Hid Ht].
    apply String.eqb_eq in Hid.
    destruct (Photo.uploadType p); cbn in Ht; [discriminate | auto].
Qed.

(** ** What the bot alone can do *)

Lemma run_app ops1 ops2 w : run (ops1 ++ ops2) w = run ops2 (run ops1 w).
Proof. unfold run. apply foldl_app. Qed.

Lemma run_photo_messages userId envs imgs :
  Forall2 delivers envs imgs ->
  forall w d,
    userStates w !! userId = Some (UserState.mk preloadedPhotos (Some d)) ->
    let w' := run (photo_messages userId envs) w in
    userStates w' !! userId
      = Some (UserState.mk preloadedPhotos (Some (foldl add_image d imgs)))
    /\ Events w' = Events w /\ Photos w' = Photos w.
Proof.
  induction 1 as [|env img envs imgs Hdel HF IH]; intros w d H; cbn zeta.
  - auto.
  - cbn [photo_messages fmap list_fmap run foldl exec fst snd].
    destruct (onPhoto_delivered env userId w d img H Hdel) as (Hu & He & Hp).
    destruct (IH (snd (onPhoto env userId w)) (add_image d img)) as (Hs' & He' & Hp').
    { rewrite Hu. apply lookup_insert_eq. }
    unfold photo_messages, run in *. repeat split; congruence.
Qed.

Lemma receive_all_cons env u updates w :
  receive_all ((env, u) :: updates) w = receive_all updates (receive env u w).
Proof. reflexivity. Qed.

Lemma receive_all_app updates1 updates2 w :
  receive_all (updates1 ++ updates2) w = receive_all updates2 (receive_all updates1 w).
Proof. unfold receive_all. rewrite fmap_app. apply run_app. Qed.

Lemma receive_all_photo_updates userId envs w :
  receive_all (photo_updates userId envs) w = run (photo_messages userId envs) w.
Proof.
  unfold receive_all, photo_updates, photo_messages. f_equal.
  induction envs as [|env envs IH]; [reflexivity|]. cbn. f_equal. exact IH.
Qed.

(** One update: nothing is persisted, and no session enters the disable
    flow. *)
Lemma receive_persists_nothing env u w :
  no_disable_session w ->
  Events (receive env u w) = Events w
  /\ Photos (receive env u w) = Photos w
  /\ no_disable_session (receive env u w).
Proof.
  intros Hnd. unfold receive.
  destruct u as [userId text|userId]; cbn [route].
  - destruct (is_start_command text); cbn [exec].
    + rewrite onStart_eq. cbn. split; [reflexivity|]. split; [reflexivity|].
      intros v us. unfold no_disable_session in Hnd. cbn.
      destruct (decide (v = userId)) as [->|Hne].
      * rewrite lookup_insert_eq. intros [= <-]. discriminate.
      * rewrite lookup_insert_ne by congruence. apply Hnd.
    + destruct (onText_store env userId text w (Hnd userId)) as [He Hp].
      split; [exact He|]. split; [exact Hp|].
      intros v us' Hv. destruct (decide (v = userId)) as [->|Hne].
      * destruct (userStates w !! userId) as [us|] eqn:H.
        -- destruct (onText_transition _ _ _ _ _ _ H Hv) as [->|Hadv].
           ++ exact (Hnd _ _ H).
           ++ apply text_advances_step in Hadv. intros E. rewrite E in Hadv.
              destruct (UserState.step us); discriminate.
        -- rewrite onText_no_session in Hv by assumption. cbn in Hv. congruence.
      * destruct (onText_effect env userId text w) as (_ & Hframe & _).
        rewrite (Hframe v Hne) in Hv. exact (Hnd _ _ Hv).
  - cbn [exec]. destruct (onPhoto_frame env userId w) as (He & Hp & Hframe).
    split; [exact He|]. split; [exact Hp|].
    intros v us' Hv. destruct (decide (v = userId)) as [->|Hne].
    + destruct (userStates w !! userId) as [us|] eqn:H.
      * destruct (onPhoto_transition _ _ _ _ _ H Hv) as [->|Hadv].
        -- exact (Hnd _ _ H).
        -- pose proof (Hnd _ _ H) as Hus.
           apply photo_advances_step in Hadv as [E|E].
           ++ congruence.
           ++ intros E'. rewrite E' in E.
              destruct (UserState.step us); discriminate.
      * rewrite onPhoto_no_session in Hv by assumption. cbn in Hv. congruence.
    + rewrite (Hframe v Hne) in Hv. exact (Hnd _ _ Hv).
Qed.

(** X20. Through the bot alone nothing is ever persisted.  The completion
    command is taken by the text handler, and the command that opens the
    disable flow likewise, so along any sequence of updates, whatever the
    users send and whatever the collaborators answer, the collections of
    Events and Photos stay exactly as they were, and no session enters the
    disable flow.  The only writer the program has left is the upload
    route. *)
Theorem bot_updates_persist_nothing (updates : list (Env * Update)) (w : World) :
  no_disable_session w ->
  let w' := receive_all updates w in
  Events w' = Events w /\ Photos w' = Photos w /\ no_disable_session w'.
Proof.
  cbn zeta. revert w. induction updates as [|[env u] updates IH]; intros w Hnd.
  - auto.
  - rewrite receive_all_cons.
    destruct (receive_persists_nothing env u w Hnd) as (He & Hp & Hnd').
    destruct (IH _ Hnd') as (He' & Hp' & Hnd'').
    split; [congruence | split; [congruence | exact Hnd'']].
Qed.

(** ** A whole conversation *)

Lemma start_command_slash text :
  is_start_command text = true -> exists rest, text = String "/" rest.
Proof.
  destruct text as [|[[] [] [] [] [] [] [] []] rest]; try discriminate; eauto.
Qed.

Lemma parsed_is_no_command text n :
  parseInt text = Some n -> is_start_command text = false.
Proof.
  intros Hn. destruct (is_start_command text) eqn:E; [|reflexivity].
  apply start_command_slash in E as [rest ->]. discriminate Hn.
Qed.

Lemma token_is_no_command text :
  includes ["/both"; "/viewalbum"; "/uploadpics"] text = true ->
  is_start_command text = false.
Proof.
  intros H. destruct (accepted_token _ H) as [[-> _]|[[-> _]|[-> _]]]; reflexivity.
Qed.

(** X21. A whole conversation made of valid inputs does not create its
    event.  After the start command, a welcome text and a description
    within their limits, a background image, a service type, a limit and
    any number of preloaded images, all accepted, the completion command
    leaves the session where it was: in step [preloadedPhotos], with a
    draft that holds exactly what was sent, the images in the order they
    were sent.  No Event and no Photo has been stored. *)
Theorem conversation_never_completes (userId : string) (env : Env)
    (welcome descr : string) (env_bg : Env) (bg : Image.t) (service limit : string)
    (n : Z) (env_photos : list Env) (imgs : list Image.t)
    (env_done : Env) (w : World) :
  is_start_command welcome = false -> (String.length welcome <= 100)%nat ->
  is_start_command descr = false -> (String.length descr <= 200)%nat ->
  delivers env_bg bg ->
  includes ["/both"; "/viewalbum"; "/uploadpics"] service = true ->
  parseInt limit = Some n -> 1 <= n <= 20 ->
  Forall2 delivers env_photos imgs ->
  let w' := receive_all (conversation userId env welcome descr env_bg service limit
                           env_photos env_done) w in
  exists d,
    userStates w' !! userId = Some (UserState.mk preloadedPhotos (Some d))
    /\ EventData.eventId d = generateEventId env
    /\ EventData.createdBy d = userId
    /\ EventData.welcomeText d = Some welcome
    /\ EventData.description d = Some descr
    /\ EventData.backgroundImage d = Some bg
    /\ EventData.serviceType d = Some (replace_slash service)
    /\ EventData.uploadLimit d = Some n
    /\ collected d = imgs
    /\ Events w' = Events w
    /\ Photos w' = Photos w.
Proof.
  intros Hw0 Hwl Hd0 Hdl [Hbg1 Hbg2] Hsvc Hn Hr Hdel.
  cbn zeta. unfold conversation. rewrite !receive_all_app.
  set (eid := generateEventId env) in *.
  set (d6 := EventData.mk eid userId (Some welcome) (Some descr) (Some bg)
               (Some (replace_slash service)) (Some n) None).
  (* the six steps of the chain *)
  assert (let w6 := receive_all
                      [(env, UpdText userId "/start"); (env, UpdText userId welcome);
                       (env, UpdText userId descr); (env_bg, UpdPhoto userId);
                       (env, UpdText userId service); (env, UpdText userId limit)] w in
          userStates w6 !! userId = Some (UserState.mk preloadedPhotos (Some d6))
          /\ Events w6 = Events w /\ Photos w6 = Photos w) as H6.
  { rewrite !receive_all_cons. unfold receive. cbn [route].
    change (is_start_command "/start") with true.
    rewrite Hw0, Hd0, (token_is_no_command _ Hsvc), (parsed_is_no_command _ _ Hn).
    cbn [receive_all fmap list_fmap run foldl fst snd exec].
    set (w1 := snd (onStart env userId w)).
    assert (userStates w1 !! userId
            = Some (UserState.mk welcomeText
                      (Some (EventData.mk eid userId None None None None None None)))
            /\ Events w1 = Events w /\ Photos w1 = Photos w) as (S1 & E1 & P1).
    { subst w1. rewrite onStart_eq. cbn. rewrite lookup_insert_eq. auto. }
    set (w2 := snd (onText env userId welcome w1)).
    assert (userStates w2 !! userId
            = Some (UserState.mk description
                      (Some (EventData.mk eid userId (Some welcome) None None None None None)))
            /\ Events w2 = Events w /\ Photos w2 = Photos w) as (S2 & E2 & P2).
    { subst w2. rewrite (onText_welcomeText _ _ _ _ _ S1 eq_refl).
      rewrite (proj2 (Nat.ltb_ge _ _) Hwl). unfold advance. cbn.
      rewrite lookup_insert_eq. auto. }
    set (w3 := snd (onText env userId descr w2)).
    assert (userStates w3 !! userId
            = Some (UserState.mk backgroundImage
                      (Some (EventData.mk eid userId (Some welcome) (Some descr)
                               None None None None)))
            /\ Events w3 = Events w /\ Photos w3 = Photos w) as (S3 & E3 & P3).
    { subst w3. rewrite (onText_description _ _ _ _ _ S2 eq_refl).
      rewrite (proj2 (Nat.ltb_ge _ _) Hdl). unfold advance. cbn.
      rewrite lookup_insert_eq. auto. }
    set (w4 := snd (onPhoto env_bg userId w3)).
    assert (userStates w4 !! userId
            = Some (UserState.mk serviceType
                      (Some (EventData.mk eid userId (Some welcome) (Some descr)
                               (Some bg) None None None)))
            /\ Events w4 = Events w /\ Photos w4 = Photos w) as (S4 & E4 & P4).
    { subst w4. rewrite (onPhoto_backgroundImage _ _ _ _ S3 eq_refl), Hbg1, Hbg2. cbn.
      destruct (unlink_fails env_bg); cbn; rewrite lookup_insert_eq; auto. }
    set (w5 := snd (onText env userId service w4)).
    assert (userStates w5 !! userId
            = Some (UserState.mk uploadLimit
                      (Some (EventData.mk eid userId (Some welcome) (Some descr)
                               (Some bg) (Some (replace_slash service)) None None)))
            /\ Events w5 = Events w /\ Photos w5 = Photos w) as (S5 & E5 & P5).
    { subst w5. rewrite (onText_serviceType _ _ _ _ _ S4 eq_refl), Hsvc.
      unfold advance. cbn. rewrite lookup_insert_eq. auto. }
    rewrite (onText_uploadLimit _ _ _ _ _ S5 eq_refl).
    assert (limit_accepted limit = Some n) as ->
      by (apply limit_accepted_Some; split; assumption).
    unfold advance. cbn. rewrite lookup_insert_eq. auto. }
  cbn zeta in H6. destruct H6 as (S6 & E6 & P6).
  (* the preloaded images *)
  rewrite receive_all_photo_updates.
  destruct (run_photo_messages userId env_photos imgs Hdel _ d6 S6) as (S7 & E7 & P7).
  set (w7 := run (photo_messages userId env_photos) _) in *.
  set (d7 := foldl add_image d6 imgs) in *.
  assert (collected d7 = imgs) as Hcol
    by (subst d7; rewrite collected_foldl_add_image; reflexivity).
  pose proof (same_but_photos_foldl imgs d6) as Hsame. fold d7 in Hsame.
  unfold same_but_photos in Hsame.
  (* the completion command *)
  rewrite receive_all_cons. cbn [receive_all fmap list_fmap run foldl].
  rewrite receive_done, (onText_falls_through _ _ _ _ _ S7) by auto. cbn [snd].
  exists d7. rewrite S7, E7, E6, P7, P6.
  split; [reflexivity|].
  split; [exact (f_equal EventData.eventId Hsame)|].
  split; [exact (f_equal EventData.createdBy Hsame)|].
  split; [exact (f_equal EventData.welcomeText Hsame)|].
  split; [exact (f_equal EventData.description Hsame)|].
  split; [exact (f_equal EventData.backgroundImage Hsame)|].
  split; [exact (f_equal EventData.serviceType Hsame)|].
  split; [exact (f_equal EventData.uploadLimit Hsame)|].
  auto.
Qed.

(** ** What [parseInt] reads *)

Lemma append_String c s r : (String c s ++ r)%string = String c (s ++ r).
Proof. reflexivity. Qed.

Lemma append_empty r : ("" ++ r)%string = r.
Proof. reflexivity. Qed.

(** X22. [parseInt] skips white space in front of the number: a text with
    blanks, tabs or line breaks before the digits is read like the text
    without them, so the limit step accepts both alike. *)
Theorem parseInt_skips_leading_space (blanks text : string) :
  string_forall isStrWhiteSpaceChar blanks = true ->
  parseInt (blanks ++ text) = parseInt text
  /\ limit_accepted (blanks ++ text) = limit_accepted text.
Proof.
  intros H.
  assert (trimStart (blanks ++ text) = trimStart text) as Htrim.
  { induction blanks as [|c rest IH]; [reflexivity|].
    cbn in H. apply andb_true_iff in H as [Hc Hrest].
    rewrite append_String. cbn [trimStart]. rewrite Hc. apply IH, Hrest. }
  assert (parseInt (blanks ++ text) = parseInt text) as Hp
    by (unfold parseInt; rewrite Htrim; reflexivity).
  split; [exact Hp|]. unfold limit_accepted. rewrite Hp. reflexivity.
Qed.

Lemma parseDigits_stops R s acc :
  starts_with (fun c => match radixDigit R c with Some _ => true | None => false end) s = false ->
  parseDigits R s acc = acc.
Proof.
  destruct s as [|c rest]; [reflexivity|]. cbn.
  destruct (radixDigit R c); [discriminate | reflexivity].
Qed.

Lemma parseDigits_prefix digits rest acc :
  string_forall is_decimal digits = true ->
  starts_with is_decimal rest = false ->
  parseDigits 10 (digits ++ rest) acc = parseDigits 10 digits acc.
Proof.
  revert acc. induction digits as [|c ds IH]; intros acc Hd Hr.
  - rewrite append_empty. cbn. apply parseDigits_stops. exact Hr.
  - cbn in Hd. apply andb_true_iff in Hd as [Hc Hds].
    rewrite append_String. cbn [parseDigits]. unfold is_decimal in Hc.
    destruct (radixDigit 10 c); [|discriminate]. apply IH; assumption.
Qed.

(** X23. [parseInt] reads the longest run of digits and ignores what
    follows: a text that starts with decimal digits is read like those
    digits alone, whatever comes after them ("5 photos" is 5), except that
    a lone 0 followed by x or X opens a hexadecimal number.  The limit step
    therefore accepts or rejects such a text by its leading digits. *)
Theorem parseInt_ignores_what_follows (digits rest : string) :
  digits <> "" ->
  string_forall is_decimal digits = true ->
  starts_with is_decimal rest = false ->
  (digits = "0" ->
   starts_with (fun c => Ascii.eqb c "x" || Ascii.eqb c "X") rest = false) ->
  parseInt (digits ++ rest) = parseInt digits
  /\ limit_accepted (digits ++ rest) = limit_accepted digits.
Proof.
  intros Hne Hd Hr Hx.
  assert (parseInt (digits ++ rest) = parseInt digits) as Hp.
  { destruct digits as [|c ds]; [congruence|].
    pose proof Hd as Hd'. cbn in Hd'. apply andb_true_iff in Hd' as [Hc Hds].
    rewrite append_String.
    rewrite (parseInt_decimal_start c (ds ++ rest) Hc),
            (parseInt_decimal_start c ds Hc).
    - rewrite <- append_String, (parseDigits_prefix _ _ _ Hd Hr). reflexivity.
    - intros ->. destruct ds as [|c2 ds2]; [reflexivity|].
      cbn in Hds. apply andb_true_iff in Hds as [Hc2 _]. cbn.
      destruct c2 as [[] [] [] [] [] [] [] []]; try discriminate Hc2; reflexivity.
    - intros ->. destruct ds as [|c2 ds2].
      + rewrite append_empty. apply Hx. reflexivity.
      + cbn in Hds. apply andb_true_iff in Hds as [Hc2 _]. rewrite append_String. cbn.
        destruct c2 as [[] [] [] [] [] [] [] []]; try discriminate Hc2; reflexivity. }
  split; [exact Hp|]. unfold limit_accepted. rewrite Hp. reflexivity.
Qed.

(** ** The further properties on sample data *)

Lemma invalid_input_keeps_session_witness :
  userStates
    (receive quiet (UpdText "42" (text_of_length 101))
       (session_world (UserState.mk welcomeText (Some fresh_draft)))) !! "42"
  = Some (UserState.mk welcomeText (Some fresh_draft)).
Proof.
  apply (proj1 (invalid_input_keeps_session quiet
                  (UpdText "42" (text_of_length 101))
                  (UserState.mk welcomeText (Some fresh_draft))
                  (session_world (UserState.mk welcomeText (Some fresh_draft)))
                  eq_refl eq_refl)
           eq_refl).
Defined.

Lemma failed_image_keeps_session_witness :
  exists d',
    userStates (exec host_down (OpPhoto "42") background_world) !! "42"
    = Some (UserState.mk backgroundImage (Some d'))
    /\ collected d' = collected fresh_draft.
Proof.
  destruct (failed_image_keeps_session host_down "42" background_world
              (UserState.mk backgroundImage (Some fresh_draft)) fresh_draft
              eq_refl eq_refl (or_introl eq_refl) (or_intror eq_refl))
    as (d' & Hs & _ & Hc & _).
  exists d'. split; [exact Hs | exact Hc].
Defined.

Lemma background_image_stored_witness :
  exists d',
    userStates (exec quiet (OpPhoto "42") background_world) !! "42"
    = Some (UserState.mk serviceType (Some d'))
    /\ EventData.backgroundImage d' = Some sample_image.
Proof.
  destruct (background_image_stored quiet "42" background_world
              (UserState.mk backgroundImage (Some fresh_draft)) fresh_draft sample_image
              eq_refl eq_refl eq_refl (conj eq_refl eq_refl))
    as (d' & Hs & Hb & _).
  exists d'. split; [exact Hs | exact Hb].
Defined.

Lemma preloaded_images_accumulate_witness :
  exists d',
    userStates (run (photo_messages "42" [quiet; quiet2]) ready_world) !! "42"
    = Some (UserState.mk preloadedPhotos (Some d'))
    /\ collected d' = [sample_image; sample_image; other_image].
Proof.
  destruct (preloaded_images_accumulate "42" [quiet; quiet2]
              [sample_image; other_image] ready_world sample_draft eq_refl)
    as (d' & Hs & Hc & _).
  - repeat constructor.
  - exists d'. split; [exact Hs | exact Hc].
Defined.

Lemma sessions_independent_witness :
  userStates (exec quiet (OpDone "42") ready_world) !! "7"
  = userStates ready_world !! "7".
Proof.
  apply (sessions_independent quiet (OpDone "42") ready_world "7").
  discriminate.
Defined.

Lemma one_step_per_message_witness :
  UserState.step (UserState.mk serviceType
                    (Some (EventData.set_backgroundImage sample_image fresh_draft)))
  = UserState.step (UserState.mk backgroundImage (Some fresh_draft))
  \/ next_step (UserState.step (UserState.mk backgroundImage (Some fresh_draft)))
     = Some (UserState.step
               (UserState.mk serviceType
                  (Some (EventData.set_backgroundImage sample_image fresh_draft)))).
Proof.
  apply (one_step_per_message quiet "42" MsgPhoto background_world
           (UserState.mk backgroundImage (Some fresh_draft))
           (UserState.mk serviceType
              (Some (EventData.set_backgroundImage sample_image fresh_draft)))
           eq_refl eq_refl).
Defined.

Lemma drafts_collected_in_order_witness : sessions_wf (run sample_chain empty_world).
Proof.
  apply (drafts_collected_in_order sample_chain empty_world).
  intros u us H. cbn in H. rewrite lookup_empty in H. discriminate H.
Defined.

Lemma accepted_service_type_is_valid_witness :
  "/viewalbum" = "/both"
  /\ castServiceType (Some (replace_slash "/viewalbum")) = Some both
  \/ "/viewalbum" = "/viewalbum"
     /\ castServiceType (Some (replace_slash "/viewalbum")) = Some viewalbum
  \/ "/viewalbum" = "/uploadpics"
     /\ castServiceType (Some (replace_slash "/viewalbum")) = Some uploadpics.
Proof. apply (accepted_service_type_is_valid "/viewalbum" eq_refl). Defined.

Lemma disable_flow_keeps_session_witness :
  userStates (exec quiet (OpText "7" "EVT_K3X9A7PQ2") disabling_world)
  = userStates disabling_world.
Proof.
  apply (disable_flow_keeps_session quiet "7" "EVT_K3X9A7PQ2" disabling_world
           (UserState.mk eventIdForDisable None) eq_refl eq_refl).
Defined.

Lemma disable_closes_event_witness :
  list_find (fun e => Event.eventId e = "EVT_K3X9A7PQ2")
    (Events (exec quiet (OpText "7" "EVT_K3X9A7PQ2") disabling_world))
  = Some (0%nat, Event.set_status disabled (sample_event 5 both active)).
Proof.
  apply (disable_closes_event quiet "7" "EVT_K3X9A7PQ2" disabling_world
           (UserState.mk eventIdForDisable None) 0 (sample_event 5 both active)
           eq_refl eq_refl eq_refl eq_refl eq_refl).
Defined.

Lemma event_ids_stay_unique_witness :
  NoDup (Event.eventId <$> Events (run (sample_chain ++ [(quiet, OpDone "42")]) empty_world)).
Proof.
  apply (event_ids_stay_unique (sample_chain ++ [(quiet, OpDone "42")]) empty_world).
  apply NoDup_nil_2.
Defined.

Lemma events_stay_within_schema_witness :
  Forall Event_ok (Events (run (sample_chain ++ [(quiet, OpDone "42")]) empty_world)).
Proof.
  apply (events_stay_within_schema (sample_chain ++ [(quiet, OpDone "42")]) empty_world).
  apply Forall_nil_2.
Defined.

Lemma disabled_stays_disabled_witness :
  exists event',
    Events (run [(quiet, OpUpload sample_request); (quiet, OpStart "42")] disabled_world)
      !! 0%nat = Some event'
    /\ Event.status event' = disabled.
Proof.
  destruct (disabled_stays_disabled
              [(quiet, OpUpload sample_request); (quiet, OpStart "42")] disabled_world
              0 (sample_event 5 both disabled) eq_refl eq_refl)
    as (event' & Hl & _ & Hs).
  exists event'. split; [exact Hl | exact Hs].
Defined.

Lemma photos_keep_their_event_witness :
  photos_refer (run (sample_chain ++ [(quiet, OpDone "42")]) empty_world).
Proof.
  apply (photos_keep_their_event (sample_chain ++ [(quiet, OpDone "42")]) empty_world).
  apply Forall_nil_2.
Defined.

Lemma photos_stay_well_formed_witness :
  Forall Photo_ok (Photos (run (sample_chain ++ [(quiet, OpDone "42")]) empty_world)).
Proof.
  apply (photos_stay_well_formed (sample_chain ++ [(quiet, OpDone "42")]) empty_world).
  apply Forall_nil_2.
Defined.

Lemma quota_never_exceeded_witness :
  prior_uploads "EVT_K3X9A7PQ2" "203.0.113.7"
    (run [(quiet, OpUpload sample_request); (quiet, OpUpload sample_request);
          (quiet, OpUpload sample_request)]
       (world_of [sample_event 2 both active]))
  <= Z.max (prior_uploads "EVT_K3X9A7PQ2" "203.0.113.7"
              (world_of [sample_event 2 both active]))
       (Event.uploadLimit (sample_event 2 both active)).
Proof.
  apply (quota_never_exceeded
           [(quiet, OpUpload sample_request); (quiet, OpUpload sample_request);
            (quiet, OpUpload sample_request)]
           (world_of [sample_event 2 both active])
           "EVT_K3X9A7PQ2" "203.0.113.7" 0 (sample_event 2 both active) eq_refl).
Defined.

Lemma upload_counts_for_its_own_key_witness :
  prior_uploads "EVT_K3X9A7PQ2" "203.0.113.7"
    (exec quiet (OpUpload other_request) (world_of [sample_event 2 both active]))
  = prior_uploads "EVT_K3X9A7PQ2" "203.0.113.7" (world_of [sample_event 2 both active]).
Proof.
  apply (upload_counts_for_its_own_key quiet other_request
           (world_of [sample_event 2 both active]) "EVT_K3X9A7PQ2" "203.0.113.7").
  right. discriminate.
Defined.

Lemma upload_failure_modes_witness :
  postUpload unlink_failing sample_request (world_of [sample_event 2 both active])
  = (Ok upload_failed,
     with_Photos [guest_photo unlink_failing sample_request sample_image]
       (world_of [sample_event 2 both active])).
Proof.
  apply (proj2 (proj2 (upload_failure_modes unlink_failing sample_request
                         (world_of [sample_event 2 both active]) 0
                         (sample_event 2 both active)
                         eq_refl eq_refl ltac:(discriminate) eq_refl)
                  eq_refl eq_refl)
           sample_image (ex_intro _ _ eq_refl) eq_refl eq_refl eq_refl eq_refl).
Defined.

Lemma query_route_reads_only_witness :
  fst (getEvent quiet "EVT_UNKNOWN" (world_of [sample_event 2 both active]))
  = Ok event_not_found.
Proof.
  apply (proj2 (proj2 (query_route_reads_only quiet "EVT_UNKNOWN"
                         (world_of [sample_event 2 both active])))
           eq_refl eq_refl).
Defined.

Lemma query_lists_witness :
  exists preloadedPhotos guestPhotos flag,
    fst (getEvent quiet "EVT_K3X9A7PQ2"
           (run (sample_chain ++ [(quiet, OpDone "42")]) empty_world))
    = Ok (json 200
            (EventBody
               (Event.mk "EVT_K3X9A7PQ2" "Hi" "Party" (Some sample_image) both 1
                  [Preloaded.mk "events/img1" "https://img.example/img1" 1700000000000]
                  "42" active 1700000000000)
               preloadedPhotos guestPhotos flag))
    /\ newest_first preloadedPhotos.
Proof.
  destruct (query_lists quiet "EVT_K3X9A7PQ2"
              (run (sample_chain ++ [(quiet, OpDone "42")]) empty_world) 0
              (Event.mk "EVT_K3X9A7PQ2" "Hi" "Party" (Some sample_image) both 1
                 [Preloaded.mk "events/img1" "https://img.example/img1" 1700000000000]
                 "42" active 1700000000000)
              eq_refl eq_refl)
    as (pre & gst & flag & Heq & _ & _ & Hsorted & _).
  exists pre, gst, flag. split; [exact Heq | exact Hsorted].
Defined.

Lemma bot_updates_persist_nothing_witness :
  Events (receive_all sample_updates empty_world) = []
  /\ Photos (receive_all sample_updates empty_world) = [].
Proof.
  destruct (bot_updates_persist_nothing sample_updates empty_world) as (He & Hp & _).
  - intros u us H. cbn in H. rewrite lookup_empty in H. discriminate H.
  - split; [exact He | exact Hp].
Defined.

Lemma conversation_never_completes_witness :
  exists d,
    userStates
      (receive_all (conversation "42" quiet "Hi" "Party" quiet "/uploadpics" "3 photos"
                      [quiet; quiet2] quiet) empty_world) !! "42"
    = Some (UserState.mk preloadedPhotos (Some d))
    /\ EventData.uploadLimit d = Some 3
    /\ collected d = [sample_image; other_image]
    /\ Events
         (receive_all (conversation "42" quiet "Hi" "Party" quiet "/uploadpics" "3 photos"
                         [quiet; quiet2] quiet) empty_world) = [].
Proof.
  destruct (conversation_never_completes "42" quiet "Hi" "Party" quiet sample_image
              "/uploadpics" "3 photos" 3 [quiet; quiet2] [sample_image; other_image]
              quiet empty_world)
    as (d & Hs & _ & _ & _ & _ & _ & _ & Hl & Hc & He & _).
  - reflexivity.
  - vm_compute. lia.
  - reflexivity.
  - vm_compute. lia.
  - split; reflexivity.
  - reflexivity.
  - reflexivity.
  - lia.
  - repeat constructor.
  - exists d. repeat split; assumption.
Defined.

Lemma parseInt_skips_leading_space_witness :
  parseInt ("  " ++ "12") = parseInt "12".
Proof. apply (proj1 (parseInt_skips_leading_space "  " "12" eq_refl)). Defined.

Lemma parseInt_ignores_what_follows_witness :
  limit_accepted ("5" ++ " photos") = limit_accepted "5".
Proof.
  refine (proj2 (parseInt_ignores_what_follows "5" " photos" _ eq_refl eq_refl _)).
  - discriminate.
  - intros H. discriminate H.
Defined.
